(** * hfos-robot: remote control arbitration and the machineroom encoder

    A shallow embedding of [isomer/robot/rcmanager.py] (the
    [RemoteControlManager] component, which decides which client may steer)
    and of [isomer/robot/machineroom.py] (the [Machineroom] component, which
    turns joystick input into command frames for the serial port), followed
    by the properties of the two components.

    Conventions of the embedding:
    - a Python [int] is a [Z]; a byte string is a [list Z] whose elements
      were checked to lie in [0, 255] when the string was built
      ([bytes_of], as [bytes([x])] does);
    - an axis value is a rational [Q]: every finite float is one, and for
      [-1 <= raw <= 1] the product [raw * 128] is exact in binary floating
      point, so that [int(raw * 128)] is the truncation of the exact
      product; an infinite float is out of range like a large rational, a
      float NaN (which passes the range test and makes [int] raise
      [ValueError]) has no counterpart in [Q];
    - the component's attributes are the fields of a record which every
      method threads through the monad [M]; an exception leaves the state
      as it was when it was raised; the type [event] holds the messages
      of the clients and the opening of the link, the handlers [machine],
      [rudder], [pump] and [ping] of the machineroom are modelled apart from
      it and [read], which only logs, is left out;
    - [fireEvent(write(cmd), "port")] appends [cmd] to the field [port], so
      that [port] is the sequence of frames handed to the serial link, oldest
      first; the log keeps the entries of level [warn] and [critical] that
      the modelled methods write. *)

From Stdlib Require Import ZArith QArith Qround Lia List Ascii String.
From stdpp Require Import base option list gmap strings.

Local Open Scope string_scope.
Local Open Scope list_scope.
Local Open Scope Z_scope.

(** ** Exceptions, results and the state monad of the machineroom *)

Inductive exn : Type :=
| KeyError    (* a subscript [d[k]] whose key (or index) is absent *)
| ValueError. (* [bytes([x])] with [x] outside [range(0, 256)] *)

Inductive res (A : Type) : Type :=
| Ok (a : A)
| Raise (e : exn).
Arguments Ok {A} a.
Arguments Raise {A} e.

Inductive log_entry : Type :=
| Cannot_transmit                    (* warn *)
| Transmitting_bytes (cmd : list Z)  (* critical *)
| Illegal_command (cmd : list Z)     (* critical *)
| Incorrect_control_value (raw : Q). (* warn *)

Record Machineroom : Type := mkMachineroom {
  maestro : bool;
  _values : gmap Z Z;
  _serial_open : bool;
  port : list (list Z);
  log : list log_entry
}.

Definition M (A : Type) : Type := Machineroom -> Machineroom * res A.

Definition ret {A} (a : A) : M A := fun s => (s, Ok a).

Definition raise {A} (e : exn) : M A := fun s => (s, Raise e).

Definition bind {A B} (m : M A) (f : A -> M B) : M B :=
  fun s => match m s with
           | (s', Ok a) => f a s'
           | (s', Raise e) => (s', Raise e)
           end.

Declare Scope mr_scope.
Delimit Scope mr_scope with mr.
Notation "'let!' x ':=' m 'in' k" := (bind m (fun x => k))
  (at level 10, x name, m at level 100, k at level 200) : mr_scope.
Notation "m1 '>>' m2" := (bind m1 (fun _ => m2))
  (at level 100, m2 at level 200, right associativity) : mr_scope.
Local Open Scope mr_scope.

Definition gets {A} (f : Machineroom -> A) : M A := fun s => (s, Ok (f s)).

Definition modify (f : Machineroom -> Machineroom) : M unit := fun s => (f s, Ok tt).

Definition set_serial_open (b : bool) (s : Machineroom) : Machineroom :=
  mkMachineroom (maestro s) (_values s) b (port s) (log s).

Definition set_value (k v : Z) (s : Machineroom) : Machineroom :=
  mkMachineroom (maestro s) (<[k := v]> (_values s)) (_serial_open s) (port s) (log s).

Definition add_write (cmd : list Z) (s : Machineroom) : Machineroom :=
  mkMachineroom (maestro s) (_values s) (_serial_open s) (port s ++ [cmd]) (log s).

Definition add_log (e : log_entry) (s : Machineroom) : Machineroom :=
  mkMachineroom (maestro s) (_values s) (_serial_open s) (port s) (log s ++ [e]).

(** [self.log(...)] and [self.fireEvent(write(cmd), "port")]. *)
Definition self_log (e : log_entry) : M unit := modify (add_log e).

Definition fireEvent_write (cmd : list Z) : M unit := modify (add_write cmd).

(** [d[k]] on a dict (or a list indexed by position). *)
Definition getitem {V} (d : gmap Z V) (k : Z) : M V :=
  match d !! k with
  | Some v => ret v
  | None => raise KeyError
  end.

(** [self._values[k]] and [self._values[k] = v]. *)
Definition values_getitem (k : Z) : M Z :=
  let! d := gets _values in getitem d k.

Definition values_setitem (k v : Z) : M unit := modify (set_value k v).

(** ** Byte strings *)

(** [bytes([x])]. *)
Definition bytes_of (x : Z) : M (list Z) :=
  if (0 <=? x) && (x <? 256) then ret [x] else raise ValueError.

(** A bytes literal [b'...']. *)
Definition b (s : string) : list Z :=
  List.map (fun c => Z.of_N (N_of_ascii c)) (list_ascii_of_string s).

Definition servo : list Z := b "s".
Definition pin : list Z := b "p".
Definition version : list Z := b "v".
Definition message : list Z := b "m".
Definition sep : list Z := b ",".
Definition terminator : list Z := [13].

(** ** Configuration set up by [Machineroom.__init__] *)

Record axis_item : Type := mkAxis { axis_name : string; axis_flags : list string }.

Definition targets : list (string * Z) :=
  [("machine", 1); ("rudder", 0); ("pump", 2)].

Definition controller_mapping_axes : list (Z * axis_item) :=
  [(1, mkAxis "machine" ["inverted"]); (2, mkAxis "rudder" [])].

Definition controller_mapping_buttons : list (Z * string) :=
  [(3, "pump")].

Definition _rudder_channel : Z := 0.
Definition _machine_channel : Z := 1.
Definition _pump_channel : Z := 2.

(** [self.targets[name]]. *)
Fixpoint targets_getitem_in (l : list (string * Z)) (name : string) : M Z :=
  match l with
  | [] => raise KeyError
  | (n, c) :: l' => if String.eqb n name then ret c else targets_getitem_in l' name
  end.

Definition targets_getitem (name : string) : M Z := targets_getitem_in targets name.

(** The state [__init__] leaves behind: every target channel starts at 0,
    the serial link is not open yet. *)
Definition init : Machineroom :=
  mkMachineroom true
    (fold_left (fun d item => <[item := 0]> d) (List.map snd targets) ∅)
    false [] [].

(** ** Methods of [Machineroom] *)

Definition _send_command (command : list Z) : M unit :=
  let! is_open := gets _serial_open in
  if negb is_open then self_log Cannot_transmit
  else
    let! mae := gets maestro in
    let cmd := if negb mae then command ++ terminator else command in
    self_log (Transmitting_bytes cmd) >>
    if negb (Nat.eqb (length cmd) 3) then self_log (Illegal_command cmd)
    else fireEvent_write cmd.

Definition _handle_servo (channel value : Z) : M unit :=
  let! mae := gets maestro in
  let! command :=
    (if mae then
       let value := Z.min value 255 in
       let! b0 := bytes_of 255 in
       let! b1 := bytes_of channel in
       let! b2 := bytes_of value in
       ret (b0 ++ b1 ++ b2)
     else
       let! b1 := bytes_of channel in
       let! b2 := bytes_of value in
       ret (servo ++ sep ++ b1 ++ sep ++ b2)) in
  _send_command command.

Definition _set_digital_pin (pin_no value : Z) : M unit :=
  let mode := if 127 <=? value then 255 else 0 in
  let! mae := gets maestro in
  if negb mae then
    let! b1 := bytes_of pin_no in
    let! b2 := bytes_of mode in
    _send_command (pin ++ sep ++ b1 ++ sep ++ b2)
  else _handle_servo pin_no mode.

Definition opened : M unit :=
  modify (set_serial_open true) >>
  let! mae := gets maestro in
  (if negb mae then
     _send_command (b "l,1") >> _send_command (b "v")
   else ret tt) >>
  _handle_servo _machine_channel 0 >>
  _handle_servo _rudder_channel 127 >>
  _set_digital_pin _pump_channel 0 >>
  let! mae := gets maestro in
  if negb mae then
    _send_command (b "l,0") >> _send_command (b "m,HFOS Control")
  else ret tt.

(** The payload of a [control_update] event. *)
Record controldata : Type := mkControl {
  axes : gmap Z Q;
  buttons : gmap Z Z
}.

(** [int(x)] on a number: truncation towards zero. *)
Definition py_int (x : Q) : Z := Z.quot (Qnum x) (Z.pos (Qden x)).

(** ['inverted' in item.get('flags', [])]. *)
Definition inverted (item : axis_item) : bool :=
  existsb (String.eqb "inverted") (axis_flags item).

(** The value an axis is turned into (the two branches of the [if] on the
    flag in [on_control_update]). *)
Definition axis_new_value (item : axis_item) (raw_value : Q) : Z :=
  if inverted item then Z.min (128 - py_int (raw_value * 128)) 255
  else Z.min (128 + py_int (raw_value * 128)) 255.

(** [raw_value < -1 or raw_value > 1]. *)
Definition out_of_range (raw_value : Q) : bool :=
  negb (Qle_bool (-1) raw_value) || negb (Qle_bool raw_value 1).

(** The loop over the axes. The result says whether the loop ran to its end
    ([true]) or left the method through [return] ([false]). *)
Fixpoint axes_loop (ev : controldata) (items : list (Z * axis_item)) : M bool :=
  match items with
  | [] => ret true
  | (key, item) :: rest =>
      let! raw_value := getitem (axes ev) key in
      if out_of_range raw_value then
        self_log (Incorrect_control_value raw_value) >> ret false
      else
        let new_value := axis_new_value item raw_value in
        let! target := targets_getitem (axis_name item) in
        let! old := values_getitem target in
        (if negb (old =? new_value) then
           _handle_servo target new_value >> values_setitem target new_value
         else ret tt) >>
        axes_loop ev rest
  end.

Fixpoint buttons_loop (ev : controldata) (items : list (Z * string)) : M unit :=
  match items with
  | [] => ret tt
  | (key, name) :: rest =>
      let! new_value := getitem (buttons ev) key in
      let! target := targets_getitem name in
      let! old := values_getitem target in
      (if negb (old =? new_value) then
         _set_digital_pin target new_value >> values_setitem target new_value
       else ret tt) >>
      buttons_loop ev rest
  end.

Definition on_control_update (ev : controldata) : M unit :=
  let! finished := axes_loop ev controller_mapping_axes in
  if finished then buttons_loop ev controller_mapping_buttons else ret tt.

(** ** The remote control manager *)

(** [remote_controller] is [None] or the uuid of the client in control. *)
Record RemoteControlManager : Type := mkRCM {
  remote_controller : option string
}.

(** The events the manager fires: a [send] to a client with the fields
    [action] and [data] of the message, or a [control_update] on the
    channel of the machineroom. *)
Inductive fired : Type :=
| send (client_uuid : string) (action : string) (data : bool)
| control_update (control_data : controldata).

(** The state [RemoteControlManager.__init__] leaves behind. *)
Definition rcm_init : RemoteControlManager := mkRCM None.

(** Truth value of [self.remote_controller]: [None] and the empty string are
    false, every other string is true. *)
Definition truth (o : option string) : bool :=
  match o with
  | None => false
  | Some EmptyString => false
  | Some (String _ _) => true
  end.

Definition clientdisconnect (clientuuid : string) (s : RemoteControlManager)
  : RemoteControlManager :=
  if decide (Some clientuuid = remote_controller s) then mkRCM None else s.

Definition control_request (client_uuid : string) (s : RemoteControlManager)
  : RemoteControlManager * list fired :=
  if negb (truth (remote_controller s)) then
    (mkRCM (Some client_uuid), [send client_uuid "control_request" true])
  else
    (s, [send client_uuid "control_request" false]).

Definition control_release (client_uuid : string) (s : RemoteControlManager)
  : RemoteControlManager * list fired :=
  if decide (remote_controller s = Some client_uuid) then
    (mkRCM None, [send client_uuid "control_release" true])
  else (s, []).

Definition data (client_uuid : string) (control_data : controldata)
  (s : RemoteControlManager) : RemoteControlManager * list fired :=
  if decide (Some client_uuid = remote_controller s) then
    (s, [control_update control_data])
  else (s, []).

(** ** The two components together

    Events are handled one at a time, each handler running to its end. A
    [send] goes to the client, a [control_update] is handled by
    [on_control_update]; an exception in a handler ends that handler and
    leaves the state as it is. *)

Inductive event : Type :=
| Control_request (client : string)
| Control_release (client : string)
| Data (client : string) (control_data : controldata)
| Clientdisconnect (client : string)
| Opened.

Record System : Type := mkSystem {
  rcm : RemoteControlManager;
  mr : Machineroom;
  sent : list fired
}.

Definition system_init : System := mkSystem rcm_init init [].

Definition deliver (sys : System) (e : fired) : System :=
  match e with
  | send _ _ _ => mkSystem (rcm sys) (mr sys) (sent sys ++ [e])
  | control_update control_data =>
      mkSystem (rcm sys) (fst (on_control_update control_data (mr sys))) (sent sys)
  end.

Definition fire (sys : System) (r : RemoteControlManager * list fired) : System :=
  fold_left deliver (snd r) (mkSystem (fst r) (mr sys) (sent sys)).

Definition step (sys : System) (ev : event) : System :=
  match ev with
  | Control_request c => fire sys (control_request c (rcm sys))
  | Control_release c => fire sys (control_release c (rcm sys))
  | Data c control_data => fire sys (data c control_data (rcm sys))
  | Clientdisconnect c => mkSystem (clientdisconnect c (rcm sys)) (mr sys) (sent sys)
  | Opened => mkSystem (rcm sys) (fst (opened (mr sys))) (sent sys)
  end.

Definition run (sys : System) (evs : list event) : System := fold_left step evs sys.

(** ** Reference definitions the properties are stated with *)

Definition clamp (x lo hi : Z) : Z := Z.max lo (Z.min x hi).

(** Truncation towards zero, through floor and ceiling. *)
Definition truncate (x : Q) : Z :=
  if Qle_bool 0 x then Qfloor x else Qceiling x.

(** Rounding to the nearest integer, a tie going to the even neighbour (as
    Python's [round] does). *)
Definition round_nearest (x : Q) : Z :=
  let f := Qfloor x in
  match (x - inject_Z f ?= 1 # 2)%Q with
  | Lt => f
  | Gt => f + 1
  | Eq => if Z.even f then f else f + 1
  end.

(** The axis rule as the specification words it: rounding to nearest and a
    clamp at both ends. *)
Definition spec_axis_value (inv : bool) (raw : Q) : Z :=
  if inv then clamp (128 - round_nearest (raw * 128)) 0 255
  else clamp (128 + round_nearest (raw * 128)) 0 255.

Definition in_range (raw : Q) : Prop := (-1 <= raw)%Q /\ (raw <= 1)%Q.

(** A relation [R] between the state before and the state after holds for
    every run of the method [m]. *)
Definition preserves (R : Machineroom -> Machineroom -> Prop) {A} (m : M A) : Prop :=
  forall s, R s (fst (m s)).

(** The mode is kept and frames are only ever added at the end of [port]. *)
Definition grows (s s' : Machineroom) : Prop :=
  maestro s' = maestro s /\ exists l, port s' = port s ++ l.



(** In the delimited mode nothing is written to the port. *)
Definition delimited (s s' : Machineroom) : Prop :=
  maestro s = false -> maestro s' = false /\ port s' = port s.

(** The bytes [_send_command] goes on with: the terminator is appended
    unless the mode is the compact one. *)
Definition wire (s : Machineroom) (command : list Z) : list Z :=
  if negb (maestro s) then command ++ terminator else command.

(** Two states with the same mode and the same last values. *)
Definition same_control (s t : Machineroom) : Prop :=
  maestro s = maestro t /\ _values s = _values t.

(** The frames of the start-up sequence of the compact mode: machine to 0,
    rudder to 127, pump off. *)
Definition startup_frames : list (list Z) :=
  [[255; _machine_channel; 0]; [255; _rudder_channel; 127]; [255; _pump_channel; 0]].

(** The channel a compact frame addresses: its second byte. *)
Definition frame_channel (f : list Z) : option Z := nth_error f 1.

(** [self.targets] as a partial function. *)
Fixpoint targets_lookup (l : list (string * Z)) (name : string) : option Z :=
  match l with
  | [] => None
  | (n, c) :: l' => if String.eqb n name then Some c else targets_lookup l' name
  end.

(** The update [ev] yields the value [v] for the channel [c]: some axis
    bound to [c] carries a value in range that is mapped to [v], or some
    button bound to [c] carries [v]. *)
Inductive produces (ev : controldata) : Z -> Z -> Prop :=
| produces_axis key item raw c :
    In (key, item) controller_mapping_axes ->
    axes ev !! key = Some raw ->
    out_of_range raw = false ->
    targets_lookup targets (axis_name item) = Some c ->
    produces ev c (axis_new_value item raw)
| produces_button key name v c :
    In (key, name) controller_mapping_buttons ->
    buttons ev !! key = Some v ->
    targets_lookup targets name = Some c ->
    produces ev c v.

(** Every bound axis is present and in range, every bound button present. *)
Definition complete (ev : controldata) : Prop :=
  (forall key item, In (key, item) controller_mapping_axes ->
     exists raw, axes ev !! key = Some raw /\ out_of_range raw = false) /\
  (forall key name, In (key, name) controller_mapping_buttons ->
     exists v, buttons ev !! key = Some v).

(** Every target channel has an entry in [_values], as after [__init__]. *)
Definition has_channels (s : Machineroom) : Prop :=
  forall name c, In (name, c) targets -> exists v, _values s !! c = Some v.

Definition is_opened (ev : event) : bool :=
  match ev with Opened => true | _ => false end.


(** The last values are kept and every frame written addresses channel [c]. *)
Definition writes_to (c : Z) (s s' : Machineroom) : Prop :=
  _values s' = _values s /\
  exists l, port s' = port s ++ l /\ Forall (fun f => frame_channel f = Some c) l.

(** If the last value of channel [c] is [v], it remains [v] and no frame
    that addresses [c] is written. *)
Definition silent_on (c v : Z) (s s' : Machineroom) : Prop :=
  _values s !! c = Some v ->
  _values s' !! c = Some v /\
  exists l, port s' = port s ++ l /\ Forall (fun f => frame_channel f <> Some c) l.

(** ** The direct requests and the ping

    The handlers of the [machine], [rudder] and [pump] events store the
    value under the name of the target, a string, whereas [__init__] and
    [on_control_update] use the channel, an integer. The dict [_values] is
    therefore the field [_values] (its integer keys) together with
    [_values_by_name] (its string keys). *)

Record Machineroom_full : Type := mkFull {
  component : Machineroom;
  _values_by_name : gmap string Z
}.

Definition N (A : Type) : Type := Machineroom_full -> Machineroom_full * res A.

(** A method that only uses the integer keys. *)
Definition lift {A} (m : M A) : N A :=
  fun s => let (c, r) := m (component s) in (mkFull c (_values_by_name s), r).

Definition then_store {A} (m : N A) (name : string) (v : Z) : N unit :=
  fun s => match m s with
           | (s', Ok _) =>
               (mkFull (component s') (<[name := v]> (_values_by_name s')), Ok tt)
           | (s', Raise e) => (s', Raise e)
           end.

Definition on_machinerequest (controlvalue : Z) : N unit :=
  then_store (lift (_handle_servo _machine_channel controlvalue)) "machine" controlvalue.

Definition on_rudderrequest (controlvalue : Z) : N unit :=
  then_store (lift (_handle_servo _rudder_channel controlvalue)) "rudder" controlvalue.

Definition on_pumprequest (controlvalue : Z) : N unit :=
  then_store (lift (_set_digital_pin _pump_channel controlvalue)) "pump" controlvalue.

(** [on_ping], given the number [randint(0, 255)] returns. *)
Definition on_ping (drawn : Z) : M unit := _handle_servo _rudder_channel drawn.

(** ** Further notions the properties are stated with *)

(** The frames written between two states all satisfy [P]. *)
Definition emits (P : list Z -> Prop) (s s' : Machineroom) : Prop :=
  exists l, port s' = port s ++ l /\ Forall P l.

(** A frame of the compact protocol for one of the configured channels. *)
Definition compact_frame (f : list Z) : Prop :=
  exists c v, f = [255; c; v] /\ In c (List.map snd targets) /\ 0 <= v <= 255.

Definition compact_emits (s s' : Machineroom) : Prop :=
  maestro s = true -> maestro s' = true /\ emits compact_frame s s'.

Definition stays_open (s s' : Machineroom) : Prop :=
  _serial_open s = true -> _serial_open s' = true.

Definition keeps_channels (s s' : Machineroom) : Prop :=
  has_channels s -> has_channels s'.

Definition no_value_error {A} (m : M A) : Prop :=
  forall s, snd (m s) <> Raise ValueError.

(** The client an event comes from. *)
Definition event_client (ev : event) : option string :=
  match ev with
  | Control_request c | Control_release c | Data c _ | Clientdisconnect c => Some c
  | Opened => None
  end.

(** The events by which client [A] gives up the control. *)
Definition leaves (A : string) (ev : event) : bool :=
  match ev with
  | Control_release c | Clientdisconnect c => String.eqb c A
  | _ => false
  end.

(** The answers to the requests of a run in which every request is denied. *)
Definition denials (evs : list event) : list fired :=
  flat_map (fun ev => match ev with
                      | Control_request c => [send c "control_request" false]
                      | _ => []
                      end) evs.

(** The values a complete update leaves in [_values]. *)
Definition stored_by (ev : controldata) (s : Machineroom) : Prop :=
  forall key,
    (forall item raw c,
       In (key, item) controller_mapping_axes -> axes ev !! key = Some raw ->
       targets_lookup targets (axis_name item) = Some c ->
       _values s !! c = Some (axis_new_value item raw)) /\
    (forall name v c,
       In (key, name) controller_mapping_buttons -> buttons ev !! key = Some v ->
       targets_lookup targets name = Some c ->
       _values s !! c = Some v).

(** The commands the log announces ("Transmitting bytes") that are three
    bytes long, in the order of the log. *)
Definition announced (l : list log_entry) : list (list Z) :=
  flat_map (fun e => match e with
                     | Transmitting_bytes cmd =>
                         if Nat.eqb (length cmd) 3 then [cmd] else []
                     | _ => []
                     end) l.

(** The port and the log tell the same story. *)
Definition port_matches_log (s s' : Machineroom) : Prop :=
  port s = announced (log s) -> port s' = announced (log s').

(** * Properties *)

(** ** The axis mapping *)

Section AxisMapping.

Lemma py_int_nonneg (x : Q) : (0 <= x)%Q -> py_int x = Qfloor x.
Proof.
  destruct x as [n d]. unfold Qle, py_int, Qfloor. simpl. intros H.
  apply Z.quot_div_nonneg; lia.
Qed.

Lemma py_int_nonpos (x : Q) : (x <= 0)%Q -> py_int x = Qceiling x.
Proof.
  destruct x as [n d]. unfold Qle, py_int, Qceiling, Qfloor. simpl. intros H.
  rewrite <- (Z.opp_involutive n) at 1.
  rewrite Z.quot_opp_l by lia.
  f_equal. apply Z.quot_div_nonneg; lia.
Qed.

Lemma py_int_truncate (x : Q) : py_int x = truncate x.
Proof.
  unfold truncate. destruct (Qle_bool 0 x) eqn:E.
  - apply py_int_nonneg. now apply Qle_bool_iff.
  - apply py_int_nonpos. apply Qlt_le_weak, Qnot_le_lt.
    intros H. apply Qle_bool_iff in H. congruence.
Qed.

Lemma py_int_Z (z : Z) : py_int (inject_Z z) = z.
Proof. unfold py_int. simpl. apply Z.quot_1_r. Qed.

Lemma py_int_le (x y : Q) : (x <= y)%Q -> py_int x <= py_int y.
Proof.
  intros H.
  destruct (Qlt_le_dec x 0) as [Hx | Hx]; destruct (Qlt_le_dec y 0) as [Hy | Hy].
  - rewrite !py_int_nonpos by now apply Qlt_le_weak.
    now apply Qceiling_resp_le.
  - rewrite (py_int_nonpos x) by now apply Qlt_le_weak.
    rewrite (py_int_nonneg y) by assumption.
    transitivity 0.
    + change 0 with (Qceiling (inject_Z 0)). rewrite Qceiling_Z.
      rewrite <- (Qceiling_Z 0). apply Qceiling_resp_le. now apply Qlt_le_weak.
    + rewrite <- (Qfloor_Z 0). now apply Qfloor_resp_le.
  - exfalso. apply (Qlt_irrefl 0).
    apply Qle_lt_trans with y; [|assumption]. now apply Qle_trans with x.
  - rewrite !py_int_nonneg by assumption. now apply Qfloor_resp_le.
Qed.

Lemma scaled_le (x y : Q) : (x <= y)%Q -> (x * 128 <= y * 128)%Q.
Proof. intros H. apply Qmult_le_compat_r; [assumption | discriminate]. Qed.

Lemma py_int_scaled_bounds (raw : Q) :
  in_range raw -> -128 <= py_int (raw * 128) <= 128.
Proof.
  intros [Hlo Hhi]. split.
  - change (-128) with (py_int (-1 * 128)). now apply py_int_le, scaled_le.
  - change 128 with (py_int (1 * 128)) at 2. now apply py_int_le, scaled_le.
Qed.

Lemma axis_new_value_bounds (item : axis_item) (raw : Q) :
  in_range raw -> 0 <= axis_new_value item raw <= 255.
Proof.
  intros H. apply py_int_scaled_bounds in H.
  unfold axis_new_value. destruct (inverted item); lia.
Qed.

End AxisMapping.

(** C4 (as stated, refuted). At [raw = 3/512] the product [raw * 128] is
    [3/4]: the code truncates it to 0 and yields 128, rounding to nearest
    yields 129. *)
Lemma axis_value_rounding_counterexample :
  in_range (3 # 512) /\
  axis_new_value (mkAxis "rudder" []) (3 # 512) = 128 /\
  spec_axis_value (inverted (mkAxis "rudder" [])) (3 # 512) = 129 /\
  axis_new_value (mkAxis "rudder" []) (3 # 512)
    <> spec_axis_value (inverted (mkAxis "rudder" [])) (3 # 512).
Proof.
  split; [split; discriminate |].
  split; [reflexivity |]. split; [reflexivity |]. discriminate.
Qed.

(** C4 (amended). For every axis value [raw] in [-1, 1] the value computed
    is [clamp (128 + t) 0 255] for a binding that is not inverted and
    [clamp (128 - t) 0 255] for an inverted one, where [t] is [raw * 128]
    truncated towards zero (not rounded to nearest). *)
Theorem axis_value_truncates (item : axis_item) (raw : Q) :
  in_range raw ->
  axis_new_value item raw =
    if inverted item then clamp (128 - truncate (raw * 128)) 0 255
    else clamp (128 + truncate (raw * 128)) 0 255.
Proof.
  intros H. pose proof (py_int_scaled_bounds raw H) as Hb.
  unfold axis_new_value, clamp. rewrite <- py_int_truncate.
  destruct (inverted item); lia.
Qed.

Lemma axis_value_truncates_witness :
  in_range (-3 # 512) /\
  axis_new_value (mkAxis "machine" ["inverted"]) (-3 # 512) =
    clamp (128 - truncate ((-3 # 512) * 128)) 0 255.
Proof.
  assert (H : in_range (-3 # 512)) by (split; discriminate).
  split; [exact H |].
  exact (axis_value_truncates (mkAxis "machine" ["inverted"]) (-3 # 512) H).
Defined.

(** C9. For every [raw] in [-1, 1] the value lies in [0, 255]; the mapping
    of a binding that is not inverted never decreases when [raw] grows, the
    mapping of an inverted binding never increases. *)
Theorem axis_value_monotone (item : axis_item) (raw1 raw2 : Q) :
  in_range raw1 -> in_range raw2 -> (raw1 <= raw2)%Q ->
  0 <= axis_new_value item raw1 <= 255 /\
  0 <= axis_new_value item raw2 <= 255 /\
  (inverted item = false -> axis_new_value item raw1 <= axis_new_value item raw2) /\
  (inverted item = true -> axis_new_value item raw2 <= axis_new_value item raw1).
Proof.
  intros H1 H2 Hle.
  split; [now apply axis_new_value_bounds |].
  split; [now apply axis_new_value_bounds |].
  pose proof (py_int_le _ _ (scaled_le _ _ Hle)) as Hm.
  unfold axis_new_value. split; intros ->; lia.
Qed.

Lemma axis_value_monotone_witness :
  axis_new_value (mkAxis "rudder" []) (-1 # 2)
    <= axis_new_value (mkAxis "rudder" []) (1 # 3) /\
  axis_new_value (mkAxis "machine" ["inverted"]) (1 # 3)
    <= axis_new_value (mkAxis "machine" ["inverted"]) (-1 # 2).
Proof.
  assert (H1 : in_range (-1 # 2)) by (split; discriminate).
  assert (H2 : in_range (1 # 3)) by (split; discriminate).
  assert (Hle : (-1 # 2 <= 1 # 3)%Q) by discriminate.
  split.
  - exact (proj1 (proj2 (proj2
      (axis_value_monotone (mkAxis "rudder" []) _ _ H1 H2 Hle))) eq_refl).
  - exact (proj2 (proj2 (proj2
      (axis_value_monotone (mkAxis "machine" ["inverted"]) _ _ H1 H2 Hle))) eq_refl).
Defined.

(** ** The session arbiter *)

Section Arbiter.

(** Any stored uuid that is not the empty string counts as "claimed". *)
Lemma truth_nonempty (A : string) : A <> EmptyString -> truth (Some A) = true.
Proof. destruct A; [congruence | reflexivity]. Qed.

Lemma request_unclaimed (c : string) :
  control_request c rcm_init = (mkRCM (Some c), [send c "control_request" true]).
Proof. reflexivity. Qed.

Lemma request_claimed (A c : string) :
  A <> EmptyString ->
  control_request c (mkRCM (Some A)) =
    (mkRCM (Some A), [send c "control_request" false]).
Proof.
  intros HA. unfold control_request. simpl remote_controller.
  now rewrite truth_nonempty.
Qed.

Lemma release_holder (A : string) :
  control_release A (mkRCM (Some A)) = (mkRCM None, [send A "control_release" true]).
Proof.
  unfold control_release. simpl remote_controller.
  destruct (decide (Some A = Some A)); [reflexivity | congruence].
Qed.

Lemma data_unclaimed (c : string) (payload : controldata) :
  data c payload rcm_init = (rcm_init, []).
Proof. reflexivity. Qed.

End Arbiter.

(** C1 (as stated, refuted). With client "A" in control, a request of "A"
    itself is answered with [data = false]. *)
Lemma rerequest_denied_counterexample :
  control_request "A" (mkRCM (Some "A")) =
    (mkRCM (Some "A"), [send "A" "control_request" false]) /\
  snd (control_request "A" (mkRCM (Some "A"))) <> [send "A" "control_request" true].
Proof. split; [reflexivity | discriminate]. Qed.

(** C1 (amended). In every state [Claimed(A)] a [control_request] is answered
    with denied ([data = false]) whoever sends it, the holder [A] included,
    and the state remains [Claimed(A)]. *)
Theorem rerequest_denied (A c : string) :
  A <> EmptyString ->
  control_request c (mkRCM (Some A)) =
    (mkRCM (Some A), [send c "control_request" false]) /\
  control_request A (mkRCM (Some A)) =
    (mkRCM (Some A), [send A "control_request" false]).
Proof. intros HA. split; now apply request_claimed. Qed.

Lemma rerequest_denied_witness :
  control_request "A" (mkRCM (Some "A")) =
    (mkRCM (Some "A"), [send "A" "control_request" false]).
Proof.
  assert (H : "A" <> EmptyString) by discriminate.
  exact (proj2 (rerequest_denied "A" "B" H)).
Defined.

(** C5. From [Unclaimed], [request(A)] is granted and [request(B)], [B]
    another client, is denied and leaves [Claimed(A)]; [release(A)] then
    leads to [Unclaimed] and is acknowledged; [data(B, payload)] after that
    fires no [control_update], so that nothing reaches the machineroom, and
    changes nothing. *)
Theorem arbiter_scenario (sys : System) (A B : string) (payload : controldata) :
  rcm sys = rcm_init -> A <> EmptyString -> A <> B ->
  let s1 := step sys (Control_request A) in
  let s2 := step s1 (Control_request B) in
  let s3 := step s2 (Control_release A) in
  let s4 := step s3 (Data B payload) in
  (remote_controller (rcm s1) = Some A /\
   sent s1 = sent sys ++ [send A "control_request" true]) /\
  (remote_controller (rcm s2) = Some A /\
   sent s2 = sent s1 ++ [send B "control_request" false]) /\
  (remote_controller (rcm s3) = None /\
   sent s3 = sent s2 ++ [send A "control_release" true]) /\
  (data B payload (rcm s3) = (rcm s3, []) /\ s4 = s3 /\ mr s4 = mr sys).
Proof.
  intros Hinit HA HAB. destruct sys as [r m out]. simpl in Hinit. subst r.
  cbn zeta. unfold step at 4. simpl rcm at 1.
  rewrite request_unclaimed. unfold fire at 1. simpl.
  unfold step, fire. simpl.
  rewrite (request_claimed A B HA). simpl.
  rewrite release_holder. simpl.
  rewrite data_unclaimed. simpl.
  repeat split; reflexivity.
Qed.

Lemma arbiter_scenario_witness :
  let payload := mkControl ∅ ∅ in
  let s1 := step system_init (Control_request "A") in
  let s2 := step s1 (Control_request "B") in
  let s3 := step s2 (Control_release "A") in
  let s4 := step s3 (Data "B" payload) in
  (remote_controller (rcm s1) = Some "A" /\
   sent s1 = sent system_init ++ [send "A" "control_request" true]) /\
  (remote_controller (rcm s2) = Some "A" /\
   sent s2 = sent s1 ++ [send "B" "control_request" false]) /\
  (remote_controller (rcm s3) = None /\
   sent s3 = sent s2 ++ [send "A" "control_release" true]) /\
  (data "B" payload (rcm s3) = (rcm s3, []) /\ s4 = s3 /\ mr s4 = mr system_init).
Proof.
  apply (arbiter_scenario system_init "A" "B" (mkControl ∅ ∅));
    [reflexivity | discriminate | discriminate].
Defined.

(** ** Relations kept by the methods of the machineroom *)

Section Preservation.

Variable R : Machineroom -> Machineroom -> Prop.
Hypothesis R_refl : forall s, R s s.
Hypothesis R_trans : forall s1 s2 s3, R s1 s2 -> R s2 s3 -> R s1 s3.

Lemma preserves_ret {A} (a : A) : preserves R (ret a).
Proof. intros s. apply R_refl. Qed.

Lemma preserves_raise {A} (e : exn) : preserves R (@raise A e).
Proof. intros s. apply R_refl. Qed.

Lemma preserves_gets {A} (f : Machineroom -> A) : preserves R (gets f).
Proof. intros s. apply R_refl. Qed.

Lemma preserves_bind {A B} (m : M A) (f : A -> M B) :
  preserves R m -> (forall a, preserves R (f a)) -> preserves R (bind m f).
Proof.
  intros Hm Hf s. unfold bind. specialize (Hm s).
  destruct (m s) as [s' [a | e]]; simpl in *.
  - eapply R_trans; [exact Hm | apply Hf].
  - exact Hm.
Qed.

Lemma preserves_getitem {V} (d : gmap Z V) (k : Z) : preserves R (getitem d k).
Proof.
  unfold getitem. destruct (d !! k); [apply preserves_ret | apply preserves_raise].
Qed.

Lemma preserves_bytes_of (x : Z) : preserves R (bytes_of x).
Proof.
  unfold bytes_of.
  destruct ((0 <=? x) && (x <? 256)); [apply preserves_ret | apply preserves_raise].
Qed.

Lemma preserves_targets_getitem (name : string) : preserves R (targets_getitem name).
Proof.
  unfold targets_getitem. induction targets as [| [n c] l IH]; simpl.
  - apply preserves_raise.
  - destruct (String.eqb n name); [apply preserves_ret | exact IH].
Qed.

Lemma preserves_values_getitem (k : Z) : preserves R (values_getitem k).
Proof.
  apply preserves_bind; [apply preserves_gets | intros d; apply preserves_getitem].
Qed.

(** The encoders, from what [_send_command] keeps. *)
Section Encoders.

Hypothesis R_send : forall command, preserves R (_send_command command).
Hypothesis R_open : forall s, R s (set_serial_open true s).

Ltac encode :=
  repeat first
    [ apply preserves_ret | apply preserves_gets | apply preserves_bytes_of
    | apply R_send
    | apply preserves_bind; [| intros ?]
    | match goal with
      | |- preserves R (if ?c then _ else _) => destruct c
      end ].

Lemma preserves_handle_servo (channel value : Z) :
  preserves R (_handle_servo channel value).
Proof. unfold _handle_servo. encode. Qed.

Lemma preserves_set_digital_pin (pin_no value : Z) :
  preserves R (_set_digital_pin pin_no value).
Proof.
  unfold _set_digital_pin. cbv zeta.
  apply preserves_bind; [apply preserves_gets | intros mae].
  destruct mae; simpl; [apply preserves_handle_servo | encode].
Qed.

Lemma preserves_opened : preserves R opened.
Proof.
  unfold opened. apply preserves_bind; [intros s; apply R_open | intros _].
  apply preserves_bind; [apply preserves_gets | intros mae].
  repeat first
    [ apply preserves_handle_servo | apply preserves_set_digital_pin
    | apply preserves_bind; [| intros ?] ];
    encode.
Qed.

End Encoders.

(** The handler of control updates, from what the encoders keep. *)
Section Handler.

Hypothesis R_log : forall raw s, R s (add_log (Incorrect_control_value raw) s).
Hypothesis R_value : forall k v s, R s (set_value k v s).
Hypothesis R_servo : forall channel value, preserves R (_handle_servo channel value).
Hypothesis R_pin : forall pin_no value, preserves R (_set_digital_pin pin_no value).

Lemma preserves_self_log (raw : Q) :
  preserves R (self_log (Incorrect_control_value raw)).
Proof. intros s. apply R_log. Qed.

Lemma preserves_values_setitem (k v : Z) : preserves R (values_setitem k v).
Proof. intros s. apply R_value. Qed.

Ltac handle :=
  repeat first
    [ apply preserves_ret | apply preserves_getitem
    | apply preserves_targets_getitem | apply preserves_self_log
    | apply preserves_values_setitem | apply preserves_values_getitem
    | apply R_servo | apply R_pin
    | apply preserves_bind; [| intros ?]
    | match goal with
      | |- preserves R (if ?c then _ else _) => destruct c
      end ].

Lemma preserves_axes_loop (ev : controldata) (items : list (Z * axis_item)) :
  preserves R (axes_loop ev items).
Proof.
  induction items as [| [key item] rest IH]; simpl; handle; exact IH.
Qed.

Lemma preserves_buttons_loop (ev : controldata) (items : list (Z * string)) :
  preserves R (buttons_loop ev items).
Proof.
  induction items as [| [key name] rest IH]; simpl; handle; exact IH.
Qed.

Lemma preserves_on_control_update (ev : controldata) :
  preserves R (on_control_update ev).
Proof.
  unfold on_control_update. apply preserves_bind.
  - apply preserves_axes_loop.
  - intros [|]; [apply preserves_buttons_loop | apply preserves_ret].
Qed.

End Handler.

End Preservation.

(** ** Sending a command *)

Section Sending.

Lemma send_command_eq (command : list Z) (s : Machineroom) :
  _send_command command s =
    (if negb (_serial_open s) then add_log Cannot_transmit s
     else
       let s1 := add_log (Transmitting_bytes (wire s command)) s in
       if Nat.eqb (length (wire s command)) 3 then add_write (wire s command) s1
       else add_log (Illegal_command (wire s command)) s1,
     Ok tt).
Proof.
  unfold _send_command, wire, bind, gets, self_log, fireEvent_write, modify.
  destruct (_serial_open s); simpl; [| reflexivity].
  destruct (maestro s); simpl;
    match goal with |- context [Nat.eqb ?n 3] => destruct (Nat.eqb n 3) end;
    reflexivity.
Qed.

Lemma grows_refl (s : Machineroom) : grows s s.
Proof. split; [reflexivity | exists []; now rewrite app_nil_r]. Qed.

Lemma grows_trans (s1 s2 s3 : Machineroom) : grows s1 s2 -> grows s2 s3 -> grows s1 s3.
Proof.
  intros [Hm1 [l1 H1]] [Hm2 [l2 H2]]. split; [congruence |].
  exists (l1 ++ l2). now rewrite H2, H1, app_assoc.
Qed.

Lemma grows_send (command : list Z) : preserves grows (_send_command command).
Proof.
  intros s. rewrite send_command_eq. simpl.
  destruct (_serial_open s); simpl; [destruct (Nat.eqb _ 3) |];
    split; simpl; try reflexivity.
  - now exists [wire s command].
  - exists []. now rewrite app_nil_r.
  - exists []. now rewrite app_nil_r.
Qed.

Lemma grows_same_port (s s' : Machineroom) :
  maestro s' = maestro s -> port s' = port s -> grows s s'.
Proof. intros Hm Hp. split; [assumption |]. exists []. now rewrite app_nil_r. Qed.

Lemma grows_handle_servo (channel value : Z) :
  preserves grows (_handle_servo channel value).
Proof.
  apply preserves_handle_servo;
    first [exact grows_refl | exact grows_trans | exact grows_send].
Qed.

Lemma grows_set_digital_pin (pin_no value : Z) :
  preserves grows (_set_digital_pin pin_no value).
Proof.
  apply preserves_set_digital_pin;
    first [exact grows_refl | exact grows_trans | exact grows_send].
Qed.

Lemma grows_on_control_update (ev : controldata) :
  preserves grows (on_control_update ev).
Proof.
  apply preserves_on_control_update;
    first [ exact grows_refl | exact grows_trans | exact grows_handle_servo
          | exact grows_set_digital_pin | intros; now apply grows_same_port ].
Qed.

Lemma grows_opened : preserves grows opened.
Proof.
  apply preserves_opened;
    first [ exact grows_refl | exact grows_trans | exact grows_send
          | intros; now apply grows_same_port ].
Qed.







End Sending.

(** ** The encoders *)

Section Encoding.

Lemma bytes_of_byte (x : Z) (s : Machineroom) :
  0 <= x <= 255 -> bytes_of x s = (s, Ok [x]).
Proof.
  intros H. unfold bytes_of.
  replace ((0 <=? x) && (x <? 256)) with true; [reflexivity |].
  symmetry. apply andb_true_intro. split; [apply Z.leb_le | apply Z.ltb_lt]; lia.
Qed.

Lemma handle_servo_compact (s : Machineroom) (channel value : Z) :
  maestro s = true -> 0 <= channel <= 255 -> 0 <= value ->
  _handle_servo channel value s =
    _send_command [255; channel; Z.min value 255] s.
Proof.
  intros Hm Hc Hv. unfold _handle_servo, bind at 1, gets. rewrite Hm.
  unfold bind. rewrite !bytes_of_byte by lia. reflexivity.
Qed.

Lemma handle_servo_delimited (s : Machineroom) (channel value : Z) :
  maestro s = false -> 0 <= channel <= 255 -> 0 <= value <= 255 ->
  _handle_servo channel value s =
    _send_command (servo ++ sep ++ [channel] ++ sep ++ [value]) s.
Proof.
  intros Hm Hc Hv. unfold _handle_servo, bind at 1, gets. rewrite Hm.
  unfold bind. rewrite !bytes_of_byte by lia. reflexivity.
Qed.

Lemma set_digital_pin_delimited (s : Machineroom) (pin_no value : Z) :
  maestro s = false -> 0 <= pin_no <= 255 ->
  _set_digital_pin pin_no value s =
    _send_command
      (pin ++ sep ++ [pin_no] ++ sep ++ [if 127 <=? value then 255 else 0]) s.
Proof.
  intros Hm Hc. unfold _set_digital_pin, bind at 1, gets. rewrite Hm.
  change (negb false) with true. cbv iota. unfold bind. rewrite !bytes_of_byte by (destruct (127 <=? value); lia).
  reflexivity.
Qed.

(** In the delimited mode a command that is not two bytes long is dropped. *)
Lemma send_command_delimited (s : Machineroom) (command : list Z) :
  maestro s = false -> length command <> 2%nat ->
  delimited s (fst (_send_command command s)).
Proof.
  intros Hm Hlen _. rewrite send_command_eq. simpl.
  assert (E : Nat.eqb (length (wire s command)) 3 = false).
  { apply Nat.eqb_neq. unfold wire. rewrite Hm. simpl.
    rewrite length_app. simpl. lia. }
  rewrite E. destruct (_serial_open s); simpl; now split.
Qed.

Lemma delimited_refl (s : Machineroom) : delimited s s.
Proof. intros H. now split. Qed.

Lemma delimited_trans (s1 s2 s3 : Machineroom) :
  delimited s1 s2 -> delimited s2 s3 -> delimited s1 s3.
Proof.
  intros H12 H23 H1. destruct (H12 H1) as [H2 Hp2]. destruct (H23 H2) as [H3 Hp3].
  split; congruence.
Qed.

Lemma delimited_handle_servo (channel value : Z) :
  preserves delimited (_handle_servo channel value).
Proof.
  intros s Hm. unfold _handle_servo, bind, gets, bytes_of, raise, ret.
  cbv beta. rewrite Hm.
  destruct ((0 <=? channel) && (channel <? 256)); simpl; [| now split].
  destruct ((0 <=? value) && (value <? 256)); simpl; [| now split].
  now apply send_command_delimited.
Qed.

Lemma delimited_set_digital_pin (pin_no value : Z) :
  preserves delimited (_set_digital_pin pin_no value).
Proof.
  intros s Hm. unfold _set_digital_pin, bind, gets, bytes_of, raise, ret.
  cbv beta. rewrite Hm. change (negb false) with true. cbv iota.
  destruct ((0 <=? pin_no) && (pin_no <? 256)); simpl; [| now split].
  destruct (127 <=? value); simpl; now apply send_command_delimited.
Qed.

Lemma delimited_on_control_update (ev : controldata) :
  preserves delimited (on_control_update ev).
Proof.
  apply preserves_on_control_update;
    first [ exact delimited_refl | exact delimited_trans
          | exact delimited_handle_servo | exact delimited_set_digital_pin
          | intros; intros Hm; now split ].
Qed.

Lemma opened_compact (s : Machineroom) :
  maestro s = true ->
  opened s =
    (mkMachineroom true (_values s) true (port s ++ startup_frames)
       (log s ++ List.map Transmitting_bytes startup_frames), Ok tt).
Proof.
  destruct s as [mae vals op prt lg]. simpl. intros ->.
  unfold startup_frames. simpl List.map.
  change (prt ++ [[255; _machine_channel; 0]; [255; _rudder_channel; 127];
                  [255; _pump_channel; 0]])
    with (prt ++ [[255; _machine_channel; 0]] ++ [[255; _rudder_channel; 127]]
              ++ [[255; _pump_channel; 0]]).
  change (lg ++ [Transmitting_bytes [255; _machine_channel; 0];
                 Transmitting_bytes [255; _rudder_channel; 127];
                 Transmitting_bytes [255; _pump_channel; 0]])
    with (lg ++ [Transmitting_bytes [255; _machine_channel; 0]]
             ++ [Transmitting_bytes [255; _rudder_channel; 127]]
             ++ [Transmitting_bytes [255; _pump_channel; 0]]).
  rewrite !app_assoc. reflexivity.
Qed.

End Encoding.

(** C8. In the compact mode, with the link open, [_handle_servo] writes
    exactly the frame [[0xFF, channel, min(value, 255)]], which is three
    bytes long and therefore passes the length check of [_send_command];
    for channel 1 and value 300 the frame is [[0xFF, 1, 255]]. *)
Theorem compact_servo_frame (s : Machineroom) (channel value : Z) :
  maestro s = true -> _serial_open s = true ->
  0 <= channel <= 255 -> 0 <= value ->
  let frame := [255; channel; Z.min value 255] in
  length frame = 3%nat /\
  _handle_servo channel value s =
    (add_write frame (add_log (Transmitting_bytes frame) s), Ok tt) /\
  port (fst (_handle_servo channel value s)) = port s ++ [frame] /\
  port (fst (_handle_servo 1 300 s)) = port s ++ [[255; 1; 255]].
Proof.
  intros Hm Ho Hc Hv frame.
  assert (E : forall c v, 0 <= c <= 255 -> 0 <= v ->
            _handle_servo c v s =
              (add_write [255; c; Z.min v 255]
                 (add_log (Transmitting_bytes [255; c; Z.min v 255]) s), Ok tt)).
  { intros c v Hc' Hv'. rewrite handle_servo_compact by assumption.
    rewrite send_command_eq. unfold wire. rewrite Ho, Hm. reflexivity. }
  split; [reflexivity |]. split; [now apply E |].
  split; [now rewrite E | now rewrite E by lia].
Qed.

Lemma compact_servo_frame_witness :
  port (fst (_handle_servo 1 300 (fst (opened init)))) =
    port (fst (opened init)) ++ [[255; 1; 255]].
Proof.
  assert (Hm : maestro (fst (opened init)) = true) by reflexivity.
  assert (Ho : _serial_open (fst (opened init)) = true) by reflexivity.
  assert (Hc : 0 <= 1 <= 255) by lia.
  assert (Hv : 0 <= 300) by lia.
  exact (proj1 (proj2 (proj2 (compact_servo_frame _ 1 300 Hm Ho Hc Hv)))).
Defined.

(** C10. The length check of [_send_command] is made in both modes: a
    command whose bytes on the wire are not exactly three is logged as
    illegal and not written. In the delimited mode a servo frame and a pin
    frame are six bytes long with their terminator, so that [_handle_servo]
    and [_set_digital_pin] never write anything to the port. *)
Theorem delimited_frames_dropped (s : Machineroom) (channel value : Z) :
  maestro s = false ->
  (forall t command,
     _serial_open t = true -> length (wire t command) <> 3%nat ->
     _send_command command t =
       (add_log (Illegal_command (wire t command))
          (add_log (Transmitting_bytes (wire t command)) t), Ok tt)) /\
  port (fst (_handle_servo channel value s)) = port s /\
  port (fst (_set_digital_pin channel value s)) = port s /\
  (_serial_open s = true -> 0 <= channel <= 255 -> 0 <= value <= 255 ->
   let frame := b "s" ++ b "," ++ [channel] ++ b "," ++ [value] ++ [13] in
   let pin_frame :=
     b "p" ++ b "," ++ [channel] ++ b "," ++ [if 127 <=? value then 255 else 0] ++ [13] in
   length frame = 6%nat /\ length pin_frame = 6%nat /\
   _handle_servo channel value s =
     (add_log (Illegal_command frame) (add_log (Transmitting_bytes frame) s), Ok tt) /\
   _set_digital_pin channel value s =
     (add_log (Illegal_command pin_frame)
        (add_log (Transmitting_bytes pin_frame) s), Ok tt)).
Proof.
  intros Hm.
  assert (Hsend : forall t command,
     _serial_open t = true -> length (wire t command) <> 3%nat ->
     _send_command command t =
       (add_log (Illegal_command (wire t command))
          (add_log (Transmitting_bytes (wire t command)) t), Ok tt)).
  { intros t command Ho Hlen. rewrite send_command_eq, Ho. simpl.
    apply Nat.eqb_neq in Hlen. now rewrite Hlen. }
  split; [exact Hsend |].
  split; [exact (proj2 (delimited_handle_servo channel value s Hm)) |].
  split; [exact (proj2 (delimited_set_digital_pin channel value s Hm)) |].
  intros Ho Hc Hv frame pin_frame.
  split; [reflexivity |]. split; [reflexivity |]. split.
  - rewrite handle_servo_delimited by assumption.
    rewrite Hsend; [| assumption |]; unfold wire; rewrite Hm; simpl; [reflexivity | lia].
  - rewrite set_digital_pin_delimited by (assumption || lia).
    rewrite Hsend; [| assumption |]; unfold wire; rewrite Hm; simpl; [reflexivity | lia].
Qed.

Lemma delimited_frames_dropped_witness :
  port (fst (_handle_servo 1 64 (mkMachineroom false ∅ true [] []))) = [] /\
  port (fst (_set_digital_pin 2 255 (mkMachineroom false ∅ true [] []))) = [].
Proof.
  assert (Hm : maestro (mkMachineroom false ∅ true [] []) = false) by reflexivity.
  split.
  - exact (proj1 (proj2 (delimited_frames_dropped _ 1 64 Hm))).
  - exact (proj1 (proj2 (proj2 (delimited_frames_dropped _ 2 255 Hm)))).
Defined.

(** ** Runs of the two components *)

Section Runs.

Variable R : Machineroom -> Machineroom -> Prop.
Hypothesis R_refl : forall s, R s s.
Hypothesis R_trans : forall s1 s2 s3, R s1 s2 -> R s2 s3 -> R s1 s3.
Hypothesis R_update : forall ev, preserves R (on_control_update ev).

Lemma deliver_keeps (sys : System) (e : fired) : R (mr sys) (mr (deliver sys e)).
Proof. destruct e; simpl; [apply R_refl | apply R_update]. Qed.

Lemma deliver_all_keeps (out : list fired) (sys : System) :
  R (mr sys) (mr (fold_left deliver out sys)).
Proof.
  revert sys. induction out as [| e out IH]; intros sys; simpl.
  - apply R_refl.
  - eapply R_trans; [apply deliver_keeps | apply IH].
Qed.

Lemma fire_keeps (sys : System) (r : RemoteControlManager * list fired) :
  R (mr sys) (mr (fire sys r)).
Proof.
  unfold fire.
  exact (deliver_all_keeps (snd r) (mkSystem (fst r) (mr sys) (sent sys))).
Qed.

(** Every event other than the opening of the link. *)
Lemma step_keeps (sys : System) (ev : event) :
  is_opened ev = false -> R (mr sys) (mr (step sys ev)).
Proof.
  destruct ev; simpl; intros H; try discriminate H;
    first [apply fire_keeps | apply R_refl].
Qed.


End Runs.

Section Startup.

Lemma step_grows (sys : System) (ev : event) : grows (mr sys) (mr (step sys ev)).
Proof.
  destruct (is_opened ev) eqn:E.
  - destruct ev; try discriminate E. simpl. apply grows_opened.
  - apply step_keeps;
      first [ exact grows_refl | exact grows_trans
            | exact grows_on_control_update | exact E ].
Qed.

Lemma run_grows (evs : list event) (sys : System) : grows (mr sys) (mr (run sys evs)).
Proof.
  revert sys. induction evs as [| ev evs IH]; intros sys; simpl.
  - apply grows_refl.
  - eapply grows_trans; [apply step_grows | apply IH].
Qed.



End Startup.




(** ** The last values do not depend on the link *)

Section Agreement.

Lemma same_control_refl (s : Machineroom) : same_control s s.
Proof. now split. Qed.


















End Agreement.




(** ** An axis out of range *)

Section Rejection.

Lemma bind_ok {A B} (m : M A) (f : A -> M B) (s s' : Machineroom) (a : A) :
  m s = (s', Ok a) -> bind m f s = f a s'.
Proof. intros H. unfold bind. now rewrite H. Qed.

Lemma bind_inv {A B} (m : M A) (f : A -> M B) (s s' : Machineroom) (y : B) :
  bind m f s = (s', Ok y) ->
  exists s0 a, m s = (s0, Ok a) /\ f a s0 = (s', Ok y).
Proof.
  unfold bind. destruct (m s) as [s0 [a | e]]; intros H.
  - now exists s0, a.
  - discriminate H.
Qed.

(** Once the axes in [l1] are processed, the loop goes on with [l2]. *)
Lemma axes_loop_app (ev : controldata) (l1 l2 : list (Z * axis_item))
    (s s1 : Machineroom) :
  axes_loop ev l1 s = (s1, Ok true) ->
  axes_loop ev (l1 ++ l2) s = axes_loop ev l2 s1.
Proof.
  revert s. induction l1 as [| [key item] l1 IH]; intros s H.
  - simpl in H. unfold ret in H. now inversion H.
  - simpl in H. simpl app. cbn [axes_loop].
    apply bind_inv in H. destruct H as (s0 & raw & E1 & H).
    rewrite (bind_ok _ _ _ _ _ E1).
    destruct (out_of_range raw).
    + unfold bind, self_log, modify, ret in H. simpl in H. discriminate H.
    + apply bind_inv in H. destruct H as (s2 & target & E2 & H).
      rewrite (bind_ok _ _ _ _ _ E2).
      apply bind_inv in H. destruct H as (s3 & old & E3 & H).
      rewrite (bind_ok _ _ _ _ _ E3).
      apply bind_inv in H. destruct H as (s4 & u & E4 & H).
      rewrite (bind_ok _ _ _ _ _ E4).
      now apply IH.
Qed.

Lemma axes_loop_rejects (ev : controldata) (key : Z) (item : axis_item)
    (later : list (Z * axis_item)) (raw : Q) (s : Machineroom) :
  axes ev !! key = Some raw -> out_of_range raw = true ->
  axes_loop ev ((key, item) :: later) s =
    (add_log (Incorrect_control_value raw) s, Ok false).
Proof.
  intros Hraw Hout. cbn [axes_loop]. unfold bind at 1, getitem. rewrite Hraw.
  unfold ret at 1. rewrite Hout. reflexivity.
Qed.

End Rejection.

(** C3 (as stated, refuted). With the link open, an update whose axis 1 is
    1/2 and whose axis 2 is 2 (out of range) writes the frame of the machine
    channel and stores its value before it is given up at axis 2. *)
Lemma partial_update_counterexample :
  let ev := mkControl (<[1 := (1 # 2)%Q]> (<[2 := 2%Q]> ∅)) (<[3 := 0]> ∅) in
  let s := fst (opened init) in
  axes ev !! 2 = Some 2%Q /\ out_of_range 2 = true /\
  port (fst (on_control_update ev s)) = port s ++ [[255; 1; 64]] /\
  _values s !! 1 = Some 0 /\
  _values (fst (on_control_update ev s)) !! 1 = Some 64.
Proof. intros ev s. repeat split; vm_compute; reflexivity. Qed.

(** Once the axes before it have been handled, an axis out of range ends
    the update: a warning is logged and neither the later axes nor the
    buttons are looked at. *)
Lemma axes_rejected_after (s s1 : Machineroom) (ev : controldata)
    (earlier later : list (Z * axis_item)) (key : Z) (item : axis_item) (raw : Q) :
  controller_mapping_axes = earlier ++ (key, item) :: later ->
  axes ev !! key = Some raw -> out_of_range raw = true ->
  axes_loop ev earlier s = (s1, Ok true) ->
  on_control_update ev s = (add_log (Incorrect_control_value raw) s1, Ok tt).
Proof.
  intros Hmap Hraw Hout Hearlier.
  unfold on_control_update. rewrite Hmap.
  unfold bind. rewrite (axes_loop_app _ _ _ _ _ Hearlier).
  now rewrite (axes_loop_rejects _ _ _ _ _ _ Hraw Hout).
Qed.

(** ** Sending on change *)

Section SendOnChange.

Lemma values_kept_send (command : list Z) :
  preserves (fun s s' => _values s' = _values s) (_send_command command).
Proof.
  intros s. rewrite send_command_eq. simpl.
  destruct (_serial_open s); simpl; [destruct (Nat.eqb _ 3) |]; reflexivity.
Qed.

Lemma values_kept_handle_servo (channel value : Z) :
  preserves (fun s s' => _values s' = _values s) (_handle_servo channel value).
Proof.
  apply preserves_handle_servo;
    first [ exact values_kept_send | intros; congruence ].
Qed.

Lemma values_kept_set_digital_pin (pin_no value : Z) :
  preserves (fun s s' => _values s' = _values s) (_set_digital_pin pin_no value).
Proof.
  apply preserves_set_digital_pin;
    first [ exact values_kept_send | intros; congruence ].
Qed.

Lemma writes_to_refl (c : Z) (s : Machineroom) : writes_to c s s.
Proof.
  split; [reflexivity |]. exists []. split; [now rewrite app_nil_r | constructor].
Qed.

(** A compact servo frame addresses the channel it was built for. *)
Lemma writes_to_handle_servo (channel value : Z) :
  preserves (writes_to channel) (_handle_servo channel value).
Proof.
  intros s. split; [apply values_kept_handle_servo |].
  destruct (maestro s) eqn:Hm.
  - unfold _handle_servo, bind, gets, bytes_of, raise, ret. cbv beta. rewrite Hm.
    change ((0 <=? 255) && (255 <? 256)) with true. cbv iota.
    destruct ((0 <=? channel) && (channel <? 256)); simpl;
      [| exists []; split; [now rewrite app_nil_r | constructor]].
    destruct ((0 <=? Z.min value 255) && (Z.min value 255 <? 256)); simpl;
      [| exists []; split; [now rewrite app_nil_r | constructor]].
    rewrite send_command_eq. unfold wire. rewrite Hm. simpl.
    destruct (_serial_open s); simpl.
    + exists [[255; channel; Z.min value 255]]. split; [reflexivity |].
      repeat constructor.
    + exists []. split; [now rewrite app_nil_r | constructor].
  - destruct (delimited_handle_servo channel value s Hm) as [_ Hp].
    exists []. split; [now rewrite app_nil_r | constructor].
Qed.

Lemma writes_to_set_digital_pin (pin_no value : Z) :
  preserves (writes_to pin_no) (_set_digital_pin pin_no value).
Proof.
  intros s. destruct (maestro s) eqn:Hm.
  - replace (_set_digital_pin pin_no value s)
      with (_handle_servo pin_no (if 127 <=? value then 255 else 0) s).
    + apply writes_to_handle_servo.
    + unfold _set_digital_pin, bind at 1, gets. now rewrite Hm.
  - split; [apply values_kept_set_digital_pin |].
    destruct (delimited_set_digital_pin pin_no value s Hm) as [_ Hp].
    exists []. split; [now rewrite app_nil_r | constructor].
Qed.

Variables c v : Z.

Lemma silent_on_refl (s : Machineroom) : silent_on c v s s.
Proof.
  intros H. split; [assumption |].
  exists []. split; [now rewrite app_nil_r | constructor].
Qed.

Lemma silent_on_trans (s1 s2 s3 : Machineroom) :
  silent_on c v s1 s2 -> silent_on c v s2 s3 -> silent_on c v s1 s3.
Proof.
  intros H12 H23 H1. destruct (H12 H1) as (H2 & l2 & Hp2 & Hf2).
  destruct (H23 H2) as (H3 & l3 & Hp3 & Hf3).
  split; [assumption |]. exists (l2 ++ l3). split.
  - now rewrite Hp3, Hp2, app_assoc.
  - apply Forall_app. now split.
Qed.

Lemma silent_on_writes_to (t : Z) (s s' : Machineroom) :
  t <> c -> writes_to t s s' -> silent_on c v s s'.
Proof.
  intros Hne [Hv (l & Hp & Hf)] H. split; [now rewrite Hv |].
  exists l. split; [assumption |].
  eapply Forall_impl; [exact Hf |]. simpl. intros f Hf' E. congruence.
Qed.

Lemma silent_on_log (e : log_entry) (s : Machineroom) : silent_on c v s (add_log e s).
Proof.
  intros H. split; [assumption |].
  exists []. split; [simpl; now rewrite app_nil_r | constructor].
Qed.

Lemma silent_on_value (t nv : Z) (s : Machineroom) :
  t <> c -> silent_on c v s (set_value t nv s).
Proof.
  intros Hne H. split.
  - simpl. now rewrite lookup_insert_ne.
  - exists []. split; [simpl; now rewrite app_nil_r | constructor].
Qed.

Lemma targets_getitem_eq (name : string) :
  targets_getitem name =
    match targets_lookup targets name with
    | Some t => ret t
    | None => raise KeyError
    end.
Proof.
  unfold targets_getitem. induction targets as [| [n t] l IH]; simpl.
  - reflexivity.
  - destruct (String.eqb n name); [reflexivity | exact IH].
Qed.

Lemma silent_on_bind_ret {A B} (a : A) (f : A -> M B) :
  preserves (silent_on c v) (f a) -> preserves (silent_on c v) (bind (ret a) f).
Proof. intros H s. exact (H s). Qed.

Lemma silent_on_bind_raise {A B} (e : exn) (f : A -> M B) :
  preserves (silent_on c v) (bind (raise e) f).
Proof. intros s. apply silent_on_refl. Qed.

(** The guarded send of one binding: nothing happens for the channel [c]
    when the new value is the stored one, and a binding of another channel
    does not touch [c]. *)
Lemma silent_on_guard {B} (t nv : Z) (command : M unit) (k : M B) :
  (t = c -> nv = v) ->
  (forall s, writes_to t s (fst (command s))) ->
  preserves (silent_on c v) k ->
  preserves (silent_on c v)
    (let! old := values_getitem t in
     (if negb (old =? nv) then command >> values_setitem t nv else ret tt) >> k).
Proof.
  intros Hsame Hcommand Hk. destruct (Z.eq_dec t c) as [-> | Hne].
  - rewrite (Hsame eq_refl). intros s Hs.
    assert (E : values_getitem c s = (s, Ok v)).
    { unfold values_getitem, bind, gets, getitem. now rewrite Hs. }
    rewrite (bind_ok _ _ _ _ _ E), Z.eqb_refl.
    change (negb true) with false. cbv iota.
    rewrite (bind_ok (ret tt) _ s s tt eq_refl). now apply Hk.
  - apply preserves_bind; try exact silent_on_trans.
    + apply preserves_values_getitem;
        first [exact silent_on_refl | exact silent_on_trans].
    + intros old.
      apply preserves_bind; try exact silent_on_trans; [| intros _; exact Hk].
      destruct (negb (old =? nv)); [| apply preserves_ret; exact silent_on_refl].
      apply preserves_bind; try exact silent_on_trans.
      * intros s. eapply silent_on_writes_to; [exact Hne | apply Hcommand].
      * intros _ s. now apply silent_on_value.
Qed.

Lemma silent_on_axes_loop (ev : controldata) (items : list (Z * axis_item)) :
  (forall key item raw,
     In (key, item) items -> axes ev !! key = Some raw ->
     out_of_range raw = false ->
     targets_lookup targets (axis_name item) = Some c ->
     axis_new_value item raw = v) ->
  preserves (silent_on c v) (axes_loop ev items).
Proof.
  induction items as [| [key item] rest IH]; intros Hyield; cbn [axes_loop].
  - apply preserves_ret. exact silent_on_refl.
  - unfold getitem. destruct (axes ev !! key) as [raw |] eqn:Hraw;
      [apply silent_on_bind_ret | apply silent_on_bind_raise].
    destruct (out_of_range raw) eqn:Hout.
    + apply preserves_bind; try exact silent_on_trans.
      * intros s. apply silent_on_log.
      * intros _. apply preserves_ret. exact silent_on_refl.
    + rewrite targets_getitem_eq.
      destruct (targets_lookup targets (axis_name item)) as [t |] eqn:Ht;
        [apply silent_on_bind_ret | apply silent_on_bind_raise].
      apply silent_on_guard.
      * intros ->. apply (Hyield key item raw); auto. now left.
      * apply writes_to_handle_servo.
      * apply IH. intros k i r Hin. apply Hyield. now right.
Qed.

Lemma silent_on_buttons_loop (ev : controldata) (items : list (Z * string)) :
  (forall key name nv,
     In (key, name) items -> buttons ev !! key = Some nv ->
     targets_lookup targets name = Some c -> nv = v) ->
  preserves (silent_on c v) (buttons_loop ev items).
Proof.
  induction items as [| [key name] rest IH]; intros Hyield; cbn [buttons_loop].
  - apply preserves_ret. exact silent_on_refl.
  - unfold getitem. destruct (buttons ev !! key) as [nv |] eqn:Hnv;
      [apply silent_on_bind_ret | apply silent_on_bind_raise].
    rewrite targets_getitem_eq.
    destruct (targets_lookup targets name) as [t |] eqn:Ht;
      [apply silent_on_bind_ret | apply silent_on_bind_raise].
    apply silent_on_guard.
    + intros ->. apply (Hyield key name nv); auto. now left.
    + apply writes_to_set_digital_pin.
    + apply IH. intros k n x Hin. apply Hyield. now right.
Qed.

(** No two bindings share a channel: an update that yields [v] for [c]
    yields it at every binding of [c]. *)
Lemma produces_axes (ev : controldata) :
  produces ev c v ->
  forall key item raw,
    In (key, item) controller_mapping_axes -> axes ev !! key = Some raw ->
    out_of_range raw = false ->
    targets_lookup targets (axis_name item) = Some c ->
    axis_new_value item raw = v.
Proof.
  intros Hp key item raw Hin Hraw Hout Ht.
  destruct Hp as [key' item' raw' c' Hin' Hraw' Hout' Ht'
                 | key' name' v' c' Hin' Hv' Ht'];
    simpl in Hin, Hin';
    repeat match goal with
           | H : _ \/ _ |- _ => destruct H
           | H : False |- _ => destruct H
           | H : (_, _) = (_, _) |- _ => inversion H; clear H; subst
           end;
    simpl in Ht, Ht'; congruence.
Qed.

Lemma produces_buttons (ev : controldata) :
  produces ev c v ->
  forall key name nv,
    In (key, name) controller_mapping_buttons -> buttons ev !! key = Some nv ->
    targets_lookup targets name = Some c -> nv = v.
Proof.
  intros Hp key name nv Hin Hnv Ht.
  destruct Hp as [key' item' raw' c' Hin' Hraw' Hout' Ht'
                 | key' name' v' c' Hin' Hv' Ht'];
    simpl in Hin, Hin';
    repeat match goal with
           | H : _ \/ _ |- _ => destruct H
           | H : False |- _ => destruct H
           | H : (_, _) = (_, _) |- _ => inversion H; clear H; subst
           end;
    simpl in Ht, Ht'; congruence.
Qed.

(** A frame for [c] is written only if the value changes. *)
Lemma silent_on_control_update (ev : controldata) :
  produces ev c v -> preserves (silent_on c v) (on_control_update ev).
Proof.
  intros Hp. unfold on_control_update.
  apply preserves_bind; try exact silent_on_trans.
  - apply silent_on_axes_loop. now apply produces_axes.
  - intros [|]; [| apply preserves_ret; exact silent_on_refl].
    apply silent_on_buttons_loop. now apply produces_buttons.
Qed.

End SendOnChange.

(** ** A complete update stores every value *)

Section Stored.

Lemma send_command_ok (command : list Z) (s : Machineroom) :
  snd (_send_command command s) = Ok tt.
Proof. now rewrite send_command_eq. Qed.

Lemma handle_servo_ok (channel value : Z) (s : Machineroom) :
  0 <= channel <= 255 -> 0 <= value <= 255 ->
  snd (_handle_servo channel value s) = Ok tt.
Proof.
  intros Hc Hv. destruct (maestro s) eqn:Hm.
  - rewrite handle_servo_compact by (assumption || lia). apply send_command_ok.
  - rewrite handle_servo_delimited by assumption. apply send_command_ok.
Qed.

Lemma set_digital_pin_ok (pin_no value : Z) (s : Machineroom) :
  0 <= pin_no <= 255 -> snd (_set_digital_pin pin_no value s) = Ok tt.
Proof.
  intros Hc. destruct (maestro s) eqn:Hm.
  - replace (_set_digital_pin pin_no value s)
      with (_handle_servo pin_no (if 127 <=? value then 255 else 0) s).
    + apply handle_servo_ok; [assumption | destruct (127 <=? value); lia].
    + unfold _set_digital_pin, bind at 1, gets. now rewrite Hm.
  - rewrite set_digital_pin_delimited by assumption. apply send_command_ok.
Qed.

(** One binding whose send returns normally: the value is stored and the
    method goes on. *)
Lemma guard_step {B} (t nv old : Z) (command : M unit) (k : M B) (s : Machineroom) :
  _values s !! t = Some old ->
  snd (command s) = Ok tt -> _values (fst (command s)) = _values s ->
  exists s',
    _values s' = <[t := nv]> (_values s) /\
    (let! o := values_getitem t in
     (if negb (o =? nv) then command >> values_setitem t nv else ret tt) >> k) s
      = k s'.
Proof.
  intros Hold Hok Hval.
  assert (E : values_getitem t s = (s, Ok old)).
  { unfold values_getitem, bind, gets, getitem. now rewrite Hold. }
  rewrite (bind_ok _ _ _ _ _ E). destruct (old =? nv) eqn:Eq.
  - apply Z.eqb_eq in Eq. subst old. exists s. split.
    + symmetry. now apply insert_id.
    + reflexivity.
  - change (negb false) with true. cbv iota.
    exists (set_value t nv (fst (command s))). split.
    + simpl. now rewrite Hval.
    + destruct (command s) as [s0 r] eqn:Ec. simpl in Hok. subst r.
      unfold bind. rewrite Ec. reflexivity.
Qed.

Lemma in_range_iff (raw : Q) : out_of_range raw = false <-> in_range raw.
Proof.
  unfold out_of_range, in_range.
  rewrite orb_false_iff, !negb_false_iff, !Qle_bool_iff. reflexivity.
Qed.

Lemma getitem_ok {V} (d : gmap Z V) (k : Z) (x : V) (s : Machineroom) :
  d !! k = Some x -> getitem d k s = (s, Ok x).
Proof. intros H. unfold getitem. now rewrite H. Qed.

Lemma axes_loop_step (ev : controldata) (key : Z) (item : axis_item)
    (rest : list (Z * axis_item)) (raw : Q) (t old : Z) (s : Machineroom) :
  axes ev !! key = Some raw -> out_of_range raw = false ->
  targets_lookup targets (axis_name item) = Some t -> 0 <= t <= 255 ->
  _values s !! t = Some old ->
  exists s',
    _values s' = <[t := axis_new_value item raw]> (_values s) /\
    axes_loop ev ((key, item) :: rest) s = axes_loop ev rest s'.
Proof.
  intros Hraw Hout Ht Hbyte Hold. cbn [axes_loop].
  rewrite (bind_ok _ _ _ _ _ (getitem_ok _ _ _ s Hraw)), Hout.
  rewrite targets_getitem_eq, Ht, (bind_ok (ret t) _ s s t eq_refl).
  apply (guard_step t _ old); [assumption | | apply values_kept_handle_servo].
  apply handle_servo_ok; [assumption |].
  now apply axis_new_value_bounds, in_range_iff.
Qed.

Lemma buttons_loop_step (ev : controldata) (key : Z) (name : string)
    (rest : list (Z * string)) (nv t old : Z) (s : Machineroom) :
  buttons ev !! key = Some nv ->
  targets_lookup targets name = Some t -> 0 <= t <= 255 ->
  _values s !! t = Some old ->
  exists s',
    _values s' = <[t := nv]> (_values s) /\
    buttons_loop ev ((key, name) :: rest) s = buttons_loop ev rest s'.
Proof.
  intros Hnv Ht Hbyte Hold. cbn [buttons_loop].
  rewrite (bind_ok _ _ _ _ _ (getitem_ok _ _ _ s Hnv)).
  rewrite targets_getitem_eq, Ht, (bind_ok (ret t) _ s s t eq_refl).
  apply (guard_step t _ old); [assumption | | apply values_kept_set_digital_pin].
  now apply set_digital_pin_ok.
Qed.

Lemma complete_update_values (ev : controldata) (s : Machineroom) :
  complete ev -> has_channels s ->
  exists raw1 raw2 b3,
    axes ev !! 1 = Some raw1 /\ axes ev !! 2 = Some raw2 /\
    buttons ev !! 3 = Some b3 /\
    snd (on_control_update ev s) = Ok tt /\
    _values (fst (on_control_update ev s)) =
      <[2 := b3]>
        (<[0 := axis_new_value (mkAxis "rudder" []) raw2]>
           (<[1 := axis_new_value (mkAxis "machine" ["inverted"]) raw1]>
              (_values s))).
Proof.
  intros [Haxes Hbuttons] Hch.
  destruct (Haxes 1 (mkAxis "machine" ["inverted"])) as (raw1 & Hr1 & Ho1);
    [now left |].
  destruct (Haxes 2 (mkAxis "rudder" [])) as (raw2 & Hr2 & Ho2);
    [right; now left |].
  destruct (Hbuttons 3 "pump") as (b3 & Hb3); [now left |].
  destruct (Hch "machine" 1) as (o1 & Ho1'); [now left |].
  destruct (Hch "rudder" 0) as (o0 & Ho0'); [right; now left |].
  destruct (Hch "pump" 2) as (o2 & Ho2'); [right; right; now left |].
  exists raw1, raw2, b3. repeat (split; [assumption |]).
  destruct (axes_loop_step ev 1 (mkAxis "machine" ["inverted"])
              [(2, mkAxis "rudder" [])] raw1 1 o1 s)
    as (sa & Hva & Ea); try assumption; [reflexivity | lia |].
  assert (Hoa : _values sa !! 0 = Some o0)
    by (rewrite Hva, lookup_insert_ne by lia; assumption).
  destruct (axes_loop_step ev 2 (mkAxis "rudder" []) [] raw2 0 o0 sa)
    as (sb & Hvb & Eb); try assumption; [reflexivity | lia |].
  assert (Hob : _values sb !! 2 = Some o2)
    by (rewrite Hvb, Hva, !lookup_insert_ne by lia; assumption).
  destruct (buttons_loop_step ev 3 "pump" [] b3 2 o2 sb)
    as (sc & Hvc & Ec); try assumption; [reflexivity | lia |].
  assert (E : on_control_update ev s = (sc, Ok tt)).
  { unfold on_control_update, controller_mapping_axes, controller_mapping_buttons.
    unfold bind. rewrite Ea, Eb. cbn [axes_loop]. unfold ret at 1.
    cbv beta iota. rewrite Ec. reflexivity. }
  rewrite E. simpl. split; [reflexivity |]. now rewrite Hvc, Hvb, Hva.
Qed.

End Stored.

(** C6. When two consecutive control updates yield the same value [v] for
    a channel [c] (the first one being processed completely), the first
    leaves [v] as the stored value of [c] and the second writes no frame
    that addresses [c] and leaves [v] stored. A frame for [c] is written
    only by an update whose value for [c] differs from the stored one. *)
Theorem send_on_change (s : Machineroom) (ev1 ev2 : controldata) (c v : Z) :
  has_channels s -> complete ev1 -> produces ev1 c v -> produces ev2 c v ->
  let s1 := fst (on_control_update ev1 s) in
  let s2 := fst (on_control_update ev2 s1) in
  _values s1 !! c = Some v /\
  _values s2 !! c = Some v /\
  (exists l, port s2 = port s1 ++ l /\
             Forall (fun f => frame_channel f <> Some c) l) /\
  (forall l, port s1 = port s ++ l ->
             Exists (fun f => frame_channel f = Some c) l ->
             _values s !! c <> Some v).
Proof.
  intros Hch Hcomplete Hp1 Hp2 s1 s2.
  assert (Hstored : _values s1 !! c = Some v).
  { destruct (complete_update_values ev1 s Hcomplete Hch)
      as (raw1 & raw2 & b3 & Hr1 & Hr2 & Hb3 & _ & Hv).
    subst s1. rewrite Hv. clear Hv.
    destruct Hp1 as [key item raw c' Hin Hraw Hout Ht | key name v' c' Hin Hv' Ht];
      simpl in Hin;
      repeat match goal with
             | H : _ \/ _ |- _ => destruct H
             | H : False |- _ => destruct H
             | H : (_, _) = (_, _) |- _ => inversion H; clear H; subst
             end;
      simpl in Ht; inversion Ht; subst.
    - rewrite Hr1 in Hraw. inversion Hraw; subst.
      rewrite !lookup_insert_ne by lia. apply lookup_insert_eq.
    - rewrite Hr2 in Hraw. inversion Hraw; subst.
      rewrite lookup_insert_ne by lia. apply lookup_insert_eq.
    - rewrite Hb3 in Hv'. inversion Hv'; subst. apply lookup_insert_eq. }
  destruct (silent_on_control_update c v ev2 Hp2 s1 Hstored) as [Hv2 Hquiet].
  repeat (split; [assumption |]).
  intros l Hl Hex Hsame.
  destruct (silent_on_control_update c v ev1 Hp1 s Hsame) as [_ (l' & Hl' & Hnone)].
  fold s1 in Hl'. rewrite Hl in Hl'. apply app_inv_head in Hl'. subst l'.
  apply Exists_exists in Hex. destruct Hex as (f & Hin & Hf).
  rewrite Forall_forall in Hnone. exact (Hnone f Hin Hf).
Qed.

Lemma send_on_change_witness :
  let ev := mkControl (<[1 := (1 # 2)%Q]> (<[2 := 0%Q]> ∅)) (<[3 := 255]> ∅) in
  let s := fst (opened init) in
  let s1 := fst (on_control_update ev s) in
  let s2 := fst (on_control_update ev s1) in
  _values s1 !! 1 = Some 64 /\
  _values s2 !! 1 = Some 64 /\
  (exists l, port s2 = port s1 ++ l /\
             Forall (fun f => frame_channel f <> Some 1) l) /\
  (forall l, port s1 = port s ++ l ->
             Exists (fun f => frame_channel f = Some 1) l ->
             _values s !! 1 <> Some 64).
Proof.
  intros ev s.
  assert (Hch : has_channels s).
  { intros name c Hin. simpl in Hin.
    destruct Hin as [E | [E | [E | []]]]; inversion E; subst; eexists; reflexivity. }
  assert (Hcomplete : complete ev).
  { split.
    - intros key item Hin. simpl in Hin.
      destruct Hin as [E | [E | []]]; inversion E; subst;
        eexists; split; reflexivity.
    - intros key name Hin. simpl in Hin.
      destruct Hin as [E | []]; inversion E; subst; eexists; reflexivity. }
  assert (Hp : produces ev 1 64).
  { apply (produces_axis ev 1 (mkAxis "machine" ["inverted"]) (1 # 2) 1);
      [now left | reflexivity | reflexivity | reflexivity]. }
  exact (send_on_change s ev ev 1 64 Hch Hcomplete Hp Hp).
Defined.


(** * Further properties *)

(** ** The session arbiter, event by event *)

Section ArbiterSteps.

Lemma step_request (sys : System) (c : string) :
  step sys (Control_request c) =
    if truth (remote_controller (rcm sys)) then
      mkSystem (rcm sys) (mr sys) (sent sys ++ [send c "control_request" false])
    else
      mkSystem (mkRCM (Some c)) (mr sys) (sent sys ++ [send c "control_request" true]).
Proof.
  unfold step, control_request. destruct (truth (remote_controller (rcm sys))); reflexivity.
Qed.

Lemma step_release (sys : System) (c : string) :
  step sys (Control_release c) =
    if decide (remote_controller (rcm sys) = Some c) then
      mkSystem (mkRCM None) (mr sys) (sent sys ++ [send c "control_release" true])
    else sys.
Proof.
  unfold step, control_release.
  destruct (decide (remote_controller (rcm sys) = Some c)); [reflexivity |].
  now destruct sys.
Qed.

Lemma step_data (sys : System) (c : string) (payload : controldata) :
  step sys (Data c payload) =
    if decide (Some c = remote_controller (rcm sys)) then
      mkSystem (rcm sys) (fst (on_control_update payload (mr sys))) (sent sys)
    else sys.
Proof.
  unfold step, data.
  destruct (decide (Some c = remote_controller (rcm sys))); [reflexivity |].
  now destruct sys.
Qed.

Lemma step_disconnect (sys : System) (c : string) :
  step sys (Clientdisconnect c) =
    if decide (Some c = remote_controller (rcm sys)) then
      mkSystem (mkRCM None) (mr sys) (sent sys)
    else sys.
Proof.
  unfold step, clientdisconnect.
  destruct (decide (Some c = remote_controller (rcm sys))); [reflexivity |].
  now destruct sys.
Qed.

Lemma eqb_false_neq (c A : string) : String.eqb c A = false -> c <> A.
Proof. intros H E. subst. now rewrite String.eqb_refl in H. Qed.

(** One event of a run in which the holder does not leave. *)
Lemma step_holder (sys : System) (A : string) (ev : event) :
  A <> EmptyString -> remote_controller (rcm sys) = Some A -> leaves A ev = false ->
  remote_controller (rcm (step sys ev)) = Some A /\
  sent (step sys ev) = sent sys ++ denials [ev].
Proof.
  intros HA Hh Hl. destruct ev as [c | c | c payload | c |].
  - rewrite step_request, Hh, truth_nonempty by assumption. now split.
  - rewrite step_release, Hh. apply eqb_false_neq in Hl.
    destruct (decide (Some A = Some c)) as [E | _]; [congruence |].
    split; [assumption | simpl; now rewrite app_nil_r].
  - rewrite step_data.
    destruct (decide (Some c = remote_controller (rcm sys)));
      (split; [assumption | simpl; now rewrite app_nil_r]).
  - rewrite step_disconnect, Hh. apply eqb_false_neq in Hl.
    destruct (decide (Some c = Some A)) as [E | _]; [congruence |].
    split; [assumption | simpl; now rewrite app_nil_r].
  - simpl. split; [assumption | now rewrite app_nil_r].
Qed.

End ArbiterSteps.

(** X1. When the holder gives up the control, by a release (acknowledged) or
    by a disconnect (not acknowledged), the next request of any client is
    granted and makes that client the holder; the machineroom is not
    involved. *)
Theorem handover (sys : System) (A B : string) :
  remote_controller (rcm sys) = Some A ->
  let released := run sys [Control_release A; Control_request B] in
  let dropped := run sys [Clientdisconnect A; Control_request B] in
  (remote_controller (rcm released) = Some B /\
   sent released =
     sent sys ++ [send A "control_release" true; send B "control_request" true] /\
   mr released = mr sys) /\
  (remote_controller (rcm dropped) = Some B /\
   sent dropped = sent sys ++ [send B "control_request" true] /\
   mr dropped = mr sys).
Proof.
  intros Hh released dropped. subst released dropped. unfold run. cbn [fold_left].
  rewrite step_release, step_disconnect, Hh.
  destruct (decide (Some A = Some A)) as [_ | E]; [| congruence].
  rewrite !step_request. simpl. rewrite <- app_assoc. now repeat split.
Qed.

Lemma handover_witness :
  let sys := step system_init (Control_request "A") in
  remote_controller
    (rcm (run sys [Clientdisconnect "A"; Control_request "B"])) = Some "B".
Proof.
  intros sys.
  assert (H : remote_controller (rcm sys) = Some "A") by reflexivity.
  exact (proj1 (proj2 (handover sys "A" "B" H))).
Defined.

(** X2. While the holder (a client with a non-empty uuid) neither releases
    nor disconnects, it remains the holder through every run of events, and
    every request made in the meantime is answered with a denial; no other
    message is sent to any client. *)
Theorem holder_persists (sys : System) (A : string) (evs : list event) :
  A <> EmptyString -> remote_controller (rcm sys) = Some A ->
  forallb (fun ev => negb (leaves A ev)) evs = true ->
  remote_controller (rcm (run sys evs)) = Some A /\
  sent (run sys evs) = sent sys ++ denials evs.
Proof.
  intros HA. revert sys. induction evs as [| ev evs IH]; intros sys Hh Hevs.
  - simpl. split; [assumption | now rewrite app_nil_r].
  - simpl in Hevs. apply andb_prop in Hevs. destruct Hevs as [Hev Hevs].
    apply negb_true_iff in Hev.
    destruct (step_holder sys A ev HA Hh Hev) as [Hh1 Hs1].
    destruct (IH (step sys ev) Hh1 Hevs) as [Hh2 Hs2].
    change (run sys (ev :: evs)) with (run (step sys ev) evs).
    split; [assumption |]. rewrite Hs2, Hs1.
    replace (denials (ev :: evs)) with (denials [ev] ++ denials evs)
      by (unfold denials; simpl; now rewrite app_nil_r).
    now rewrite app_assoc.
Qed.

Lemma holder_persists_witness :
  let sys := step system_init (Control_request "A") in
  let evs := [Control_request "B"; Control_release "B"; Clientdisconnect "C";
              Opened; Control_request "A"] in
  remote_controller (rcm (run sys evs)) = Some "A" /\
  sent (run sys evs) = sent sys ++ denials evs.
Proof.
  intros sys evs.
  assert (HA : "A" <> EmptyString) by discriminate.
  assert (Hh : remote_controller (rcm sys) = Some "A") by reflexivity.
  assert (Hevs : forallb (fun ev => negb (leaves "A" ev)) evs = true) by reflexivity.
  exact (holder_persists sys "A" evs HA Hh Hevs).
Defined.

(** X3. An event makes the manager send at most one message, and only to
    the client the event comes from: a request is always answered, data and
    disconnects never. *)
Theorem replies_to_sender_only (sys : System) (ev : event) :
  exists l,
    sent (step sys ev) = sent sys ++ l /\ (length l <= 1)%nat /\
    (forall e, In e l ->
       exists c action d, e = send c action d /\ event_client ev = Some c) /\
    (forall c, ev = Control_request c -> length l = 1%nat) /\
    (forall c payload, ev = Data c payload -> l = []) /\
    (forall c, ev = Clientdisconnect c -> l = []).
Proof.
  assert (Hnone : forall sys', sent sys' = sent sys ->
            exists l, sent sys' = sent sys ++ l /\ (length l <= 1)%nat /\
              (forall e, In e l ->
                 exists c action d, e = send c action d /\ event_client ev = Some c) /\
              ((forall c, ev = Control_request c -> False) ->
               (forall c, ev = Control_request c -> length l = 1%nat) /\
               (forall c payload, ev = Data c payload -> l = []) /\
               (forall c, ev = Clientdisconnect c -> l = []))).
  { intros sys' H. exists []. rewrite app_nil_r. split; [exact H |].
    split; [simpl; lia |]. split; [intros x [] |]. intros Hreq.
    split; [intros c E; destruct (Hreq c E) |]. now split. }
  assert (Hone : forall sys' c action d,
            sent sys' = sent sys ++ [send c action d] -> event_client ev = Some c ->
            (forall c' payload, ev <> Data c' payload) ->
            (forall c', ev <> Clientdisconnect c') ->
            exists l, sent sys' = sent sys ++ l /\ (length l <= 1)%nat /\
              (forall e, In e l ->
                 exists c action d, e = send c action d /\ event_client ev = Some c) /\
              (forall c, ev = Control_request c -> length l = 1%nat) /\
              (forall c payload, ev = Data c payload -> l = []) /\
              (forall c, ev = Clientdisconnect c -> l = [])).
  { intros sys' c action d H Hc Hd Hx. exists [send c action d].
    split; [exact H |]. split; [simpl; lia |].
    split; [intros x [<- | []]; eauto |].
    split; [reflexivity |].
    split; [intros c' p E; destruct (Hd c' p E) | intros c' E; destruct (Hx c' E)]. }
  destruct ev as [c | c | c payload | c |].
  - rewrite step_request. destruct (truth (remote_controller (rcm sys)));
      eapply Hone; try reflexivity; discriminate.
  - rewrite step_release.
    destruct (decide (remote_controller (rcm sys) = Some c)).
    + eapply Hone; try reflexivity; discriminate.
    + destruct (Hnone sys eq_refl) as (l & H1 & H2 & H3 & H4). exists l.
      repeat (split; [assumption |]). apply H4. discriminate.
  - rewrite step_data.
    assert (E : sent (if decide (Some c = remote_controller (rcm sys))
                      then mkSystem (rcm sys)
                             (fst (on_control_update payload (mr sys))) (sent sys)
                      else sys) = sent sys) by (now destruct (decide _)).
    destruct (Hnone _ E) as (l & H1 & H2 & H3 & H4). exists l.
    repeat (split; [assumption |]). apply H4. discriminate.
  - rewrite step_disconnect.
    assert (E : sent (if decide (Some c = remote_controller (rcm sys))
                      then mkSystem (mkRCM None) (mr sys) (sent sys)
                      else sys) = sent sys) by (now destruct (decide _)).
    destruct (Hnone _ E) as (l & H1 & H2 & H3 & H4). exists l.
    repeat (split; [assumption |]). apply H4. discriminate.
  - destruct (Hnone (step sys Opened) eq_refl) as (l & H1 & H2 & H3 & H4). exists l.
    repeat (split; [assumption |]). apply H4. discriminate.
Qed.

(** X4. Of the messages the manager handles, only control data of the
    holder reaches the machineroom: data of any other client leaves both
    components and the sent messages as they are, and a request, a release
    and a disconnect leave the machineroom as it is. Data of the holder is
    handled by [on_control_update] once, without any message to a client. *)
Theorem data_needs_authority (sys : System) (ev : event) (c : string)
    (payload : controldata) :
  (remote_controller (rcm sys) <> Some c -> step sys (Data c payload) = sys) /\
  (remote_controller (rcm sys) = Some c ->
   step sys (Data c payload) =
     mkSystem (rcm sys) (fst (on_control_update payload (mr sys))) (sent sys)) /\
  (forall client,
     event_client ev = Some client ->
     (forall payload', ev = Data client payload' ->
        remote_controller (rcm sys) <> Some client) ->
     mr (step sys ev) = mr sys).
Proof.
  split; [| split].
  - intros H. rewrite step_data.
    destruct (decide (Some c = remote_controller (rcm sys))); congruence.
  - intros H. rewrite step_data.
    destruct (decide (Some c = remote_controller (rcm sys))); congruence.
  - intros client Hc Hd. destruct ev as [c' | c' | c' payload' | c' |];
      simpl in Hc; inversion Hc; subst.
    + rewrite step_request. now destruct (truth _).
    + rewrite step_release. now destruct (decide _).
    + rewrite step_data. specialize (Hd payload' eq_refl).
      destruct (decide (Some client = remote_controller (rcm sys))); congruence.
    + rewrite step_disconnect. now destruct (decide _).
Qed.

Lemma data_needs_authority_witness :
  let sys := step system_init (Control_request "A") in
  let payload := mkControl (<[1 := 0%Q]> (<[2 := 0%Q]> ∅)) (<[3 := 255]> ∅) in
  step sys (Data "B" payload) = sys /\
  mr (step sys (Data "A" payload)) = fst (on_control_update payload (mr sys)) /\
  mr (step sys (Control_release "A")) = mr sys.
Proof.
  intros sys payload.
  assert (HB : remote_controller (rcm sys) <> Some "B") by discriminate.
  assert (HA : remote_controller (rcm sys) = Some "A") by reflexivity.
  pose proof (data_needs_authority sys (Control_release "A") "B" payload)
    as (H1 & _ & H3).
  pose proof (data_needs_authority sys (Control_release "A") "A" payload)
    as (_ & H2 & _).
  split; [exact (H1 HB) |]. split; [now rewrite (H2 HA) |].
  apply (H3 "A"); [reflexivity | discriminate].
Defined.

(** X5. A request is granted exactly when no controller is stored or the
    stored uuid is the empty string (which Python takes for false); the
    requester then becomes the holder, whoever held the control. *)
Theorem grant_iff_falsy (c : string) (s : RemoteControlManager) :
  (snd (control_request c s) = [send c "control_request" true] <->
   remote_controller s = None \/ remote_controller s = Some EmptyString) /\
  (snd (control_request c s) = [send c "control_request" true] ->
   fst (control_request c s) = mkRCM (Some c)) /\
  (snd (control_request c s) <> [send c "control_request" true] ->
   control_request c s = (s, [send c "control_request" false])).
Proof.
  destruct s as [[[| a h] |]]; unfold control_request; simpl; repeat split;
    try tauto; try congruence; try discriminate;
    try (intros [H | H]; congruence); auto.
Qed.

(** ** Invariants of every run *)

Section AllRuns.

Variable R : Machineroom -> Machineroom -> Prop.
Hypothesis R_refl : forall s, R s s.
Hypothesis R_trans : forall s1 s2 s3, R s1 s2 -> R s2 s3 -> R s1 s3.
Hypothesis R_update : forall ev, preserves R (on_control_update ev).
Hypothesis R_opened : preserves R opened.

Lemma step_all_keeps (sys : System) (ev : event) : R (mr sys) (mr (step sys ev)).
Proof.
  destruct (is_opened ev) eqn:E.
  - destruct ev; try discriminate E. simpl. apply R_opened.
  - now apply step_keeps.
Qed.

Lemma run_all_keeps (evs : list event) (sys : System) : R (mr sys) (mr (run sys evs)).
Proof.
  revert sys. induction evs as [| ev evs IH]; intros sys; simpl.
  - apply R_refl.
  - eapply R_trans; [apply step_all_keeps | apply IH].
Qed.

End AllRuns.

Section Emitting.

Variable P : list Z -> Prop.

Lemma emits_refl (s : Machineroom) : emits P s s.
Proof. exists []. split; [now rewrite app_nil_r | constructor]. Qed.

Lemma emits_trans (s1 s2 s3 : Machineroom) :
  emits P s1 s2 -> emits P s2 s3 -> emits P s1 s3.
Proof.
  intros (l1 & H1 & F1) (l2 & H2 & F2). exists (l1 ++ l2). split.
  - now rewrite H2, H1, app_assoc.
  - apply Forall_app. now split.
Qed.

Lemma emits_same_port (s s' : Machineroom) : port s' = port s -> emits P s s'.
Proof. intros H. exists []. split; [now rewrite app_nil_r | constructor]. Qed.

End Emitting.

Section Invariants.

Lemma three_bytes_send (command : list Z) :
  preserves (emits (fun f => length f = 3%nat)) (_send_command command).
Proof.
  intros s. rewrite send_command_eq. simpl.
  destruct (_serial_open s); simpl; [| now apply emits_same_port].
  destruct (Nat.eqb (length (wire s command)) 3) eqn:E; [| now apply emits_same_port].
  exists [wire s command]. split; [reflexivity |].
  constructor; [now apply Nat.eqb_eq | constructor].
Qed.

Lemma three_bytes_on_control_update (ev : controldata) :
  preserves (emits (fun f => length f = 3%nat)) (on_control_update ev).
Proof.
  apply preserves_on_control_update;
    first [ exact (emits_refl _) | exact (emits_trans _)
          | intros; now apply emits_same_port
          | intros; apply preserves_handle_servo
          | intros; apply preserves_set_digital_pin ];
    first [ exact (emits_refl _) | exact (emits_trans _) | exact three_bytes_send ].
Qed.

Lemma three_bytes_opened : preserves (emits (fun f => length f = 3%nat)) opened.
Proof.
  apply preserves_opened;
    first [ exact (emits_refl _) | exact (emits_trans _) | exact three_bytes_send
          | intros; now apply emits_same_port ].
Qed.

Lemma stays_open_refl (s : Machineroom) : stays_open s s.
Proof. now intros H. Qed.

Lemma stays_open_trans (s1 s2 s3 : Machineroom) :
  stays_open s1 s2 -> stays_open s2 s3 -> stays_open s1 s3.
Proof. intros H12 H23 H. auto. Qed.

Lemma stays_open_send (command : list Z) : preserves stays_open (_send_command command).
Proof.
  intros s H. rewrite send_command_eq, H. simpl. now destruct (Nat.eqb _ 3).
Qed.

Lemma stays_open_on_control_update (ev : controldata) :
  preserves stays_open (on_control_update ev).
Proof.
  apply preserves_on_control_update;
    first [ exact stays_open_refl | exact stays_open_trans
          | intros; intros H; exact H
          | intros; apply preserves_handle_servo
          | intros; apply preserves_set_digital_pin ];
    first [ exact stays_open_refl | exact stays_open_trans | exact stays_open_send ].
Qed.

Lemma stays_open_opened : preserves stays_open opened.
Proof.
  apply preserves_opened;
    first [ exact stays_open_refl | exact stays_open_trans | exact stays_open_send
          | intros; intros H; reflexivity ].
Qed.

Lemma keeps_channels_of_values (s s' : Machineroom) :
  _values s' = _values s -> keeps_channels s s'.
Proof. intros E H name c Hin. rewrite E. now apply (H name). Qed.

Lemma keeps_channels_trans (s1 s2 s3 : Machineroom) :
  keeps_channels s1 s2 -> keeps_channels s2 s3 -> keeps_channels s1 s3.
Proof. intros H12 H23 H. auto. Qed.

Lemma keeps_channels_value (k v : Z) (s : Machineroom) :
  keeps_channels s (set_value k v s).
Proof.
  intros H name c Hin. destruct (H name c Hin) as [old Hold]. simpl.
  destruct (Z.eq_dec k c) as [-> | Hne].
  - exists v. apply lookup_insert_eq.
  - exists old. now rewrite lookup_insert_ne.
Qed.

Lemma keeps_channels_on_control_update (ev : controldata) :
  preserves keeps_channels (on_control_update ev).
Proof.
  apply preserves_on_control_update;
    first [ exact keeps_channels_trans | exact keeps_channels_value
          | intros; now apply keeps_channels_of_values
          | intros; intros s; apply keeps_channels_of_values ].
  - apply values_kept_handle_servo.
  - apply values_kept_set_digital_pin.
Qed.

Lemma values_kept_opened : preserves (fun s s' => _values s' = _values s) opened.
Proof.
  apply preserves_opened;
    first [ exact values_kept_send | intros; congruence | reflexivity ].
Qed.

Lemma keeps_channels_opened : preserves keeps_channels opened.
Proof. intros s. apply keeps_channels_of_values, values_kept_opened. Qed.

Lemma has_channels_init : has_channels init.
Proof.
  intros name c Hin. simpl in Hin.
  destruct Hin as [E | [E | [E | []]]]; inversion E; subst; eexists; reflexivity.
Qed.

(** In the delimited mode the greeting, the version query and the message
    of the start-up are dropped like the servo and pin frames. *)
Lemma delimited_opened : preserves delimited opened.
Proof.
  intros s Hm. destruct s as [mae vals op prt lg]. simpl in Hm. subst mae.
  split; reflexivity.
Qed.

End Invariants.

(** X6. In both modes and through every run of events, every frame handed
    to the serial port is exactly three bytes long. *)
Theorem frames_have_three_bytes (sys : System) (evs : list event) :
  exists l,
    port (mr (run sys evs)) = port (mr sys) ++ l /\
    Forall (fun f => length f = 3%nat) l.
Proof.
  apply (run_all_keeps (emits (fun f => length f = 3%nat)));
    first [ exact (emits_refl _) | exact (emits_trans _)
          | exact three_bytes_on_control_update | exact three_bytes_opened ].
Qed.

(** X7. In the delimited mode no event writes anything to the port: the
    start-up sequence and every control update are dropped entirely, and the
    mode never changes. *)
Theorem delimited_mode_is_mute (sys : System) (evs : list event) :
  maestro (mr sys) = false ->
  maestro (mr (run sys evs)) = false /\ port (mr (run sys evs)) = port (mr sys).
Proof.
  apply (run_all_keeps delimited);
    first [ exact delimited_refl | exact delimited_trans
          | exact delimited_on_control_update | exact delimited_opened ].
Qed.

Lemma delimited_mode_is_mute_witness :
  let sys := mkSystem (mkRCM (Some "A")) (mkMachineroom false (_values init) false [] []) [] in
  let payload := mkControl (<[1 := (1 # 2)%Q]> (<[2 := 0%Q]> ∅)) (<[3 := 255]> ∅) in
  port (mr (run sys [Opened; Data "A" payload])) = [].
Proof.
  intros sys payload.
  assert (H : maestro (mr sys) = false) by reflexivity.
  exact (proj2 (delimited_mode_is_mute sys [Opened; Data "A" payload] H)).
Defined.

(** X8. Once the link has been opened it is never taken for closed again:
    no handler resets [_serial_open], and the mode is never changed. *)
Theorem link_stays_open (sys : System) (evs : list event) :
  _serial_open (mr sys) = true ->
  _serial_open (mr (run sys evs)) = true /\
  maestro (mr (run sys evs)) = maestro (mr sys).
Proof.
  intros H. split.
  - revert H. apply (run_all_keeps stays_open);
      first [ exact stays_open_refl | exact stays_open_trans
            | exact stays_open_on_control_update | exact stays_open_opened ].
  - apply run_grows.
Qed.

Lemma link_stays_open_witness :
  let payload := mkControl (<[1 := 2%Q]> ∅) ∅ in
  _serial_open
    (mr (run (step system_init Opened)
           [Control_request "A"; Data "A" payload; Clientdisconnect "A"])) = true.
Proof.
  intros payload.
  assert (H : _serial_open (mr (step system_init Opened)) = true) by reflexivity.
  exact (proj1 (link_stays_open (step system_init Opened)
                  [Control_request "A"; Data "A" payload; Clientdisconnect "A"] H)).
Defined.

(** ** What a control update can address and how it can fail *)

Section TargetHandler.

Lemma targets_lookup_in (l : list (string * Z)) (name : string) (t : Z) :
  targets_lookup l name = Some t -> In t (List.map snd l).
Proof.
  induction l as [| [n c] l IH]; simpl; [discriminate |].
  destruct (String.eqb n name); intros H; [left; congruence | right; auto].
Qed.

Lemma targets_are_bytes (t : Z) : In t (List.map snd targets) -> 0 <= t <= 255.
Proof. simpl. intros [<- | [<- | [<- | []]]]; lia. Qed.

Variable R : Machineroom -> Machineroom -> Prop.
Hypothesis R_refl : forall s, R s s.
Hypothesis R_trans : forall s1 s2 s3, R s1 s2 -> R s2 s3 -> R s1 s3.
Hypothesis R_log : forall raw s, R s (add_log (Incorrect_control_value raw) s).
Hypothesis R_value : forall k v s, R s (set_value k v s).
Hypothesis R_servo : forall t v,
  In t (List.map snd targets) -> preserves R (_handle_servo t v).
Hypothesis R_pin : forall t v,
  In t (List.map snd targets) -> preserves R (_set_digital_pin t v).

Lemma preserves_bind_ret {A B} (a : A) (f : A -> M B) :
  preserves R (f a) -> preserves R (bind (ret a) f).
Proof. intros H s. exact (H s). Qed.

Lemma preserves_bind_raise {A B} (e : exn) (f : A -> M B) :
  preserves R (bind (raise e) f).
Proof. intros s. apply R_refl. Qed.

Lemma preserves_guard {B} (t nv : Z) (command : M unit) (k : M B) :
  preserves R command -> preserves R k ->
  preserves R
    (let! old := values_getitem t in
     (if negb (old =? nv) then command >> values_setitem t nv else ret tt) >> k).
Proof.
  intros Hcommand Hk.
  apply preserves_bind; [exact R_trans | now apply preserves_values_getitem |].
  intros old. apply preserves_bind; [exact R_trans | | intros _; exact Hk].
  destruct (negb (old =? nv)); [| now apply preserves_ret].
  apply preserves_bind; [exact R_trans | exact Hcommand |].
  intros _ s. apply R_value.
Qed.

Lemma target_axes_loop (ev : controldata) (items : list (Z * axis_item)) :
  preserves R (axes_loop ev items).
Proof.
  induction items as [| [key item] rest IH]; cbn [axes_loop].
  - now apply preserves_ret.
  - apply preserves_bind; [exact R_trans | now apply preserves_getitem |].
    intros raw. destruct (out_of_range raw).
    + apply preserves_bind; [exact R_trans | intros s; apply R_log |].
      intros _. now apply preserves_ret.
    + rewrite targets_getitem_eq.
      destruct (targets_lookup targets (axis_name item)) as [t |] eqn:Ht;
        [apply preserves_bind_ret | apply preserves_bind_raise].
      apply preserves_guard; [| exact IH].
      apply R_servo. now apply targets_lookup_in with (name := axis_name item).
Qed.

Lemma target_buttons_loop (ev : controldata) (items : list (Z * string)) :
  preserves R (buttons_loop ev items).
Proof.
  induction items as [| [key name] rest IH]; cbn [buttons_loop].
  - now apply preserves_ret.
  - apply preserves_bind; [exact R_trans | now apply preserves_getitem |].
    intros nv. rewrite targets_getitem_eq.
    destruct (targets_lookup targets name) as [t |] eqn:Ht;
      [apply preserves_bind_ret | apply preserves_bind_raise].
    apply preserves_guard; [| exact IH].
    apply R_pin. now apply targets_lookup_in with (name := name).
Qed.

Lemma target_on_control_update (ev : controldata) :
  preserves R (on_control_update ev).
Proof.
  unfold on_control_update. apply preserves_bind; [exact R_trans | |].
  - apply target_axes_loop.
  - intros [|]; [apply target_buttons_loop | now apply preserves_ret].
Qed.

End TargetHandler.

Section CompactFrames.

Lemma compact_emits_refl (s : Machineroom) : compact_emits s s.
Proof. intros H. split; [assumption | apply emits_refl]. Qed.

Lemma compact_emits_trans (s1 s2 s3 : Machineroom) :
  compact_emits s1 s2 -> compact_emits s2 s3 -> compact_emits s1 s3.
Proof.
  intros H12 H23 H1. destruct (H12 H1) as [H2 E12]. destruct (H23 H2) as [H3 E23].
  split; [assumption | now apply emits_trans with s2].
Qed.

Lemma compact_emits_same (s s' : Machineroom) :
  maestro s' = maestro s -> port s' = port s -> compact_emits s s'.
Proof. intros Hm Hp H. split; [congruence | now apply emits_same_port]. Qed.

Lemma compact_emits_handle_servo (t v : Z) :
  In t (List.map snd targets) -> preserves compact_emits (_handle_servo t v).
Proof.
  intros Ht s Hm. split; [now rewrite (proj1 (grows_handle_servo t v s)) |].
  unfold _handle_servo, bind, gets, bytes_of, raise, ret. cbv beta. rewrite Hm.
  change ((0 <=? 255) && (255 <? 256)) with true. cbv iota.
  destruct ((0 <=? t) && (t <? 256)); simpl; [| now apply emits_same_port].
  destruct ((0 <=? Z.min v 255) && (Z.min v 255 <? 256)) eqn:Ev; simpl;
    [| now apply emits_same_port].
  rewrite send_command_eq. unfold wire. rewrite Hm. simpl.
  destruct (_serial_open s); simpl; [| now apply emits_same_port].
  exists [[255; t; Z.min v 255]]. split; [reflexivity |].
  constructor; [| constructor]. exists t, (Z.min v 255).
  apply andb_prop in Ev. destruct Ev as [E1 E2].
  apply Z.leb_le in E1. apply Z.ltb_lt in E2. repeat split; (assumption || lia).
Qed.

Lemma compact_emits_set_digital_pin (t v : Z) :
  In t (List.map snd targets) -> preserves compact_emits (_set_digital_pin t v).
Proof.
  intros Ht s Hm.
  replace (_set_digital_pin t v s)
    with (_handle_servo t (if 127 <=? v then 255 else 0) s).
  - now apply compact_emits_handle_servo.
  - unfold _set_digital_pin, bind at 1, gets. now rewrite Hm.
Qed.

Lemma compact_emits_on_control_update (ev : controldata) :
  preserves compact_emits (on_control_update ev).
Proof.
  apply target_on_control_update;
    first [ exact compact_emits_refl | exact compact_emits_trans
          | exact compact_emits_handle_servo | exact compact_emits_set_digital_pin
          | intros; now apply compact_emits_same ].
Qed.

Lemma compact_emits_opened : preserves compact_emits opened.
Proof.
  intros s Hm. rewrite opened_compact by assumption. simpl.
  split; [reflexivity |]. exists startup_frames. split; [reflexivity |].
  repeat constructor.
  - exists _machine_channel, 0. simpl. repeat split; (tauto || lia).
  - exists _rudder_channel, 127. simpl. repeat split; (tauto || lia).
  - exists _pump_channel, 0. simpl. repeat split; (tauto || lia).
Qed.

End CompactFrames.

Section NoValueError.

Lemma nve_bind {A B} (m : M A) (f : A -> M B) :
  no_value_error m -> (forall a, no_value_error (f a)) -> no_value_error (bind m f).
Proof.
  intros Hm Hf s. unfold bind. specialize (Hm s).
  destruct (m s) as [s' [a | e]]; simpl in *; [apply Hf |].
  intros E. apply Hm. now inversion E.
Qed.

Lemma nve_ret {A} (a : A) : no_value_error (ret a).
Proof. intros s. discriminate. Qed.

Lemma nve_getitem {V} (d : gmap Z V) (k : Z) : no_value_error (getitem d k).
Proof. intros s. unfold getitem. destruct (d !! k); discriminate. Qed.

Lemma nve_values_getitem (k : Z) : no_value_error (values_getitem k).
Proof.
  apply nve_bind; [intros s; discriminate | intros d; apply nve_getitem].
Qed.

Lemma nve_guard {B} (t nv : Z) (command : M unit) (k : M B) :
  no_value_error command -> no_value_error k ->
  no_value_error
    (let! old := values_getitem t in
     (if negb (old =? nv) then command >> values_setitem t nv else ret tt) >> k).
Proof.
  intros Hcommand Hk. apply nve_bind; [apply nve_values_getitem | intros old].
  apply nve_bind; [| intros _; exact Hk].
  destruct (negb (old =? nv)); [| apply nve_ret].
  apply nve_bind; [exact Hcommand | intros _ s; discriminate].
Qed.

Lemma nve_targets {A} (name : string) (f : Z -> M A) :
  (forall t, 0 <= t <= 255 -> no_value_error (f t)) ->
  no_value_error (bind (targets_getitem name) f).
Proof.
  intros Hf. rewrite targets_getitem_eq.
  destruct (targets_lookup targets name) as [t |] eqn:Ht.
  - intros s. apply (Hf t).
    now apply targets_are_bytes, targets_lookup_in with (name := name).
  - intros s. discriminate.
Qed.

Lemma nve_axes_loop (ev : controldata) (items : list (Z * axis_item)) :
  no_value_error (axes_loop ev items).
Proof.
  induction items as [| [key item] rest IH]; cbn [axes_loop].
  - apply nve_ret.
  - apply nve_bind; [apply nve_getitem | intros raw].
    destruct (out_of_range raw) eqn:Hout.
    + apply nve_bind; [intros s; discriminate | intros _; apply nve_ret].
    + apply nve_targets. intros t Ht. apply nve_guard; [| exact IH].
      intros s. rewrite handle_servo_ok; [discriminate | assumption |].
      now apply axis_new_value_bounds, in_range_iff.
Qed.

Lemma nve_buttons_loop (ev : controldata) (items : list (Z * string)) :
  no_value_error (buttons_loop ev items).
Proof.
  induction items as [| [key name] rest IH]; cbn [buttons_loop].
  - apply nve_ret.
  - apply nve_bind; [apply nve_getitem | intros nv].
    apply nve_targets. intros t Ht. apply nve_guard; [| exact IH].
    intros s. rewrite set_digital_pin_ok; [discriminate | assumption].
Qed.

End NoValueError.

(** X9. In the compact mode, through every run of events, every frame
    handed to the serial port is [[0xFF, c, v]] with [c] one of the
    configured channels and [v] a byte. *)
Theorem compact_frames_only (sys : System) (evs : list event) :
  maestro (mr sys) = true ->
  exists l,
    port (mr (run sys evs)) = port (mr sys) ++ l /\
    Forall (fun f => exists c v,
              f = [255; c; v] /\ In c [1; 0; 2] /\ 0 <= v <= 255) l.
Proof.
  intros Hm.
  assert (H : compact_emits (mr sys) (mr (run sys evs))).
  { apply (run_all_keeps compact_emits);
      first [ exact compact_emits_refl | exact compact_emits_trans
            | exact compact_emits_on_control_update | exact compact_emits_opened ]. }
  exact (proj2 (H Hm)).
Qed.

Lemma compact_frames_only_witness :
  let payload := mkControl (<[1 := (1 # 2)%Q]> (<[2 := 0%Q]> ∅)) (<[3 := 255]> ∅) in
  exists l,
    port (mr (run system_init [Control_request "A"; Opened; Data "A" payload])) =
      port (mr system_init) ++ l /\
    Forall (fun f => exists c v,
              f = [255; c; v] /\ In c [1; 0; 2] /\ 0 <= v <= 255) l.
Proof.
  intros payload.
  assert (H : maestro (mr system_init) = true) by reflexivity.
  exact (compact_frames_only system_init
           [Control_request "A"; Opened; Data "A" payload] H).
Defined.

(** X10. For a payload whose axis values are finite numbers (the rationals
    of this model; a float NaN, which passes the range test and makes [int]
    raise, is not among them) and whose button values are integers, a
    control update never raises [ValueError], whatever the state and the
    mode: the channels are bytes and the values it computes are bytes. The
    only exception it can raise is [KeyError]. *)
Theorem update_never_value_error (s : Machineroom) (ev : controldata) :
  snd (on_control_update ev s) <> Raise ValueError /\
  (snd (on_control_update ev s) = Ok tt \/
   snd (on_control_update ev s) = Raise KeyError).
Proof.
  assert (H : snd (on_control_update ev s) <> Raise ValueError).
  { revert s. change (no_value_error (on_control_update ev)).
    unfold on_control_update. apply nve_bind; [apply nve_axes_loop |].
    intros [|]; [apply nve_buttons_loop | apply nve_ret]. }
  split; [exact H |].
  destruct (snd (on_control_update ev s)) as [[] | [|]]; auto. now destruct H.
Qed.

(** X11. In every state reached from the initial one, the configured
    channels have an entry in [_values], so that a complete update (every
    bound axis present and in range, every bound button present) returns
    normally. *)
Theorem reachable_update_succeeds (evs : list event) (ev : controldata) :
  complete ev ->
  has_channels (mr (run system_init evs)) /\
  snd (on_control_update ev (mr (run system_init evs))) = Ok tt.
Proof.
  intros Hcomplete.
  assert (Hch : has_channels (mr (run system_init evs))).
  { apply (run_all_keeps keeps_channels);
      first [ exact keeps_channels_trans | exact keeps_channels_on_control_update
            | exact keeps_channels_opened | exact has_channels_init
            | intros; now apply keeps_channels_of_values ]. }
  split; [exact Hch |].
  destruct (complete_update_values ev _ Hcomplete Hch)
    as (_ & _ & _ & _ & _ & _ & Hok & _).
  exact Hok.
Qed.

Lemma reachable_update_succeeds_witness :
  let payload := mkControl (<[1 := (1 # 2)%Q]> (<[2 := 0%Q]> ∅)) (<[3 := 255]> ∅) in
  snd (on_control_update payload
         (mr (run system_init [Control_request "A"; Data "A" payload; Opened]))) = Ok tt.
Proof.
  intros payload.
  assert (H : complete payload).
  { split.
    - intros key item Hin. simpl in Hin.
      destruct Hin as [E | [E | []]]; inversion E; subst; eexists; split; reflexivity.
    - intros key name Hin. simpl in Hin.
      destruct Hin as [E | []]; inversion E; subst; eexists; reflexivity. }
  exact (proj2 (reachable_update_succeeds
                  [Control_request "A"; Data "A" payload; Opened] payload H)).
Defined.

(** ** Repeated and incomplete updates *)

Section Repetition.

Lemma values_getitem_ok (t v : Z) (s : Machineroom) :
  _values s !! t = Some v -> values_getitem t s = (s, Ok v).
Proof. intros H. unfold values_getitem, bind, gets, getitem. now rewrite H. Qed.

(** A binding whose value is the stored one is passed over. *)
Lemma guard_same {B} (t nv : Z) (command : M unit) (k : M B) (s : Machineroom) :
  _values s !! t = Some nv ->
  (let! old := values_getitem t in
   (if negb (old =? nv) then command >> values_setitem t nv else ret tt) >> k) s
    = k s.
Proof.
  intros H. rewrite (bind_ok _ _ _ _ _ (values_getitem_ok _ _ _ H)), Z.eqb_refl.
  reflexivity.
Qed.

Lemma axes_loop_same (ev : controldata) (key : Z) (item : axis_item)
    (rest : list (Z * axis_item)) (raw : Q) (t : Z) (s : Machineroom) :
  axes ev !! key = Some raw -> out_of_range raw = false ->
  targets_lookup targets (axis_name item) = Some t ->
  _values s !! t = Some (axis_new_value item raw) ->
  axes_loop ev ((key, item) :: rest) s = axes_loop ev rest s.
Proof.
  intros Hraw Hout Ht Hv. cbn [axes_loop].
  rewrite (bind_ok _ _ _ _ _ (getitem_ok _ _ _ s Hraw)), Hout.
  rewrite targets_getitem_eq, Ht, (bind_ok (ret t) _ s s t eq_refl).
  now apply guard_same.
Qed.

Lemma buttons_loop_same (ev : controldata) (key : Z) (name : string)
    (rest : list (Z * string)) (nv t : Z) (s : Machineroom) :
  buttons ev !! key = Some nv -> targets_lookup targets name = Some t ->
  _values s !! t = Some nv ->
  buttons_loop ev ((key, name) :: rest) s = buttons_loop ev rest s.
Proof.
  intros Hnv Ht Hv. cbn [buttons_loop].
  rewrite (bind_ok _ _ _ _ _ (getitem_ok _ _ _ s Hnv)).
  rewrite targets_getitem_eq, Ht, (bind_ok (ret t) _ s s t eq_refl).
  now apply guard_same.
Qed.

(** An update whose values are all stored already does nothing at all. *)
Lemma update_same (ev : controldata) (s : Machineroom) :
  complete ev -> stored_by ev s -> on_control_update ev s = (s, Ok tt).
Proof.
  intros [Haxes Hbuttons] Hst.
  destruct (Haxes 1 (mkAxis "machine" ["inverted"])) as (raw1 & Hr1 & Ho1);
    [now left |].
  destruct (Haxes 2 (mkAxis "rudder" [])) as (raw2 & Hr2 & Ho2);
    [right; now left |].
  destruct (Hbuttons 3 "pump") as (b3 & Hb3); [now left |].
  assert (H1 : _values s !! 1 = Some (axis_new_value (mkAxis "machine" ["inverted"]) raw1)).
  { apply (proj1 (Hst 1) _ raw1 1); [now left | assumption | reflexivity]. }
  assert (H2 : _values s !! 0 = Some (axis_new_value (mkAxis "rudder" []) raw2)).
  { apply (proj1 (Hst 2) _ raw2 0); [right; now left | assumption | reflexivity]. }
  assert (H3 : _values s !! 2 = Some b3).
  { apply (proj2 (Hst 3) "pump" b3 2); [now left | assumption | reflexivity]. }
  unfold on_control_update, controller_mapping_axes, controller_mapping_buttons.
  unfold bind.
  rewrite (axes_loop_same ev 1 (mkAxis "machine" ["inverted"]) _ raw1 1 s
             Hr1 Ho1 eq_refl H1).
  rewrite (axes_loop_same ev 2 (mkAxis "rudder" []) _ raw2 0 s Hr2 Ho2 eq_refl H2).
  cbn [axes_loop]. unfold ret at 1. cbv beta iota.
  rewrite (buttons_loop_same ev 3 "pump" _ b3 2 s Hb3 eq_refl H3).
  reflexivity.
Qed.

Lemma stored_by_values (ev : controldata) (s s' : Machineroom) :
  _values s' = _values s -> stored_by ev s -> stored_by ev s'.
Proof.
  intros E H key. destruct (H key) as [Ha Hb]. split; intros; rewrite E; eauto.
Qed.

(** A complete update leaves its values stored. *)
Lemma stored_after (ev : controldata) (s : Machineroom) :
  complete ev -> has_channels s -> stored_by ev (fst (on_control_update ev s)).
Proof.
  intros Hc Hch.
  destruct (complete_update_values ev s Hc Hch)
    as (raw1 & raw2 & b3 & Hr1 & Hr2 & Hb3 & _ & Hv).
  intros key. split.
  - intros item raw c Hin Hraw Ht. rewrite Hv. simpl in Hin.
    destruct Hin as [E | [E | []]]; inversion E; subst;
      simpl in Ht; inversion Ht; subst.
    + rewrite Hr1 in Hraw. inversion Hraw; subst.
      rewrite !lookup_insert_ne by lia. apply lookup_insert_eq.
    + rewrite Hr2 in Hraw. inversion Hraw; subst.
      rewrite lookup_insert_ne by lia. apply lookup_insert_eq.
  - intros name v c Hin Hval Ht. rewrite Hv. simpl in Hin.
    destruct Hin as [E | []]; inversion E; subst.
    simpl in Ht. inversion Ht; subst.
    rewrite Hb3 in Hval. inversion Hval; subst. apply lookup_insert_eq.
Qed.

Lemma complete_example :
  complete (mkControl (<[1 := (1 # 2)%Q]> (<[2 := 0%Q]> ∅)) (<[3 := 255]> ∅)).
Proof.
  split.
  - intros key item Hin. simpl in Hin.
    destruct Hin as [E | [E | []]]; inversion E; subst; eexists; split; reflexivity.
  - intros key name Hin. simpl in Hin.
    destruct Hin as [E | []]; inversion E; subst; eexists; reflexivity.
Qed.

End Repetition.

(** X12. A complete update is idempotent: handled a second time right
    after the first, it writes no frame, logs nothing, stores nothing and
    returns normally, leaving the machineroom exactly as it was. *)
Theorem update_idempotent (s : Machineroom) (ev : controldata) :
  has_channels s -> complete ev ->
  let s1 := fst (on_control_update ev s) in
  on_control_update ev s1 = (s1, Ok tt).
Proof.
  intros Hch Hc s1. apply update_same; [assumption |]. now apply stored_after.
Qed.

Lemma update_idempotent_witness :
  let ev := mkControl (<[1 := (1 # 2)%Q]> (<[2 := 0%Q]> ∅)) (<[3 := 255]> ∅) in
  let s1 := fst (on_control_update ev (fst (opened init))) in
  on_control_update ev s1 = (s1, Ok tt).
Proof.
  intros ev.
  assert (Hch : has_channels (fst (opened init))).
  { apply keeps_channels_opened, has_channels_init. }
  exact (update_idempotent (fst (opened init)) ev Hch complete_example).
Defined.

(** X13. The opening of the link does not touch [_values]. After the
    start-up sequence has set the actuators to neutral, a control update
    that repeats the values stored before the link opened therefore writes
    nothing: the port holds the start-up frames and nothing after them. *)
Theorem reopening_keeps_stored_values (s : Machineroom) (ev : controldata) :
  has_channels s -> complete ev -> maestro s = true ->
  let s1 := fst (on_control_update ev s) in
  let s2 := fst (opened s1) in
  _values s2 = _values s1 /\
  port s2 = port s1 ++ startup_frames /\
  on_control_update ev s2 = (s2, Ok tt).
Proof.
  intros Hch Hc Hm s1 s2.
  assert (Hv : _values s2 = _values s1) by apply values_kept_opened.
  split; [exact Hv |]. split.
  - assert (Hm1 : maestro s1 = true).
    { subst s1. now rewrite (proj1 (grows_on_control_update ev s)). }
    subst s2. now rewrite (opened_compact _ Hm1).
  - apply update_same; [assumption |].
    apply (stored_by_values ev s1 s2 Hv). now apply stored_after.
Qed.

Lemma reopening_keeps_stored_values_witness :
  let ev := mkControl (<[1 := (1 # 2)%Q]> (<[2 := 0%Q]> ∅)) (<[3 := 255]> ∅) in
  let s1 := fst (on_control_update ev init) in
  let s2 := fst (opened s1) in
  _values s2 = _values s1 /\
  port s2 = port s1 ++ startup_frames /\
  on_control_update ev s2 = (s2, Ok tt).
Proof.
  intros ev.
  assert (Hm : maestro init = true) by reflexivity.
  exact (reopening_keeps_stored_values init ev has_channels_init complete_example Hm).
Defined.

(** X14. A payload that lacks axis 1 makes the handler raise [KeyError]
    before anything is done: the machineroom is unchanged. A payload with
    both axes in range but without button 3 raises [KeyError] only after
    both axis values have been handled and stored. *)
Theorem missing_input (s : Machineroom) (ev : controldata) (raw1 raw2 : Q) :
  (axes ev !! 1 = None -> on_control_update ev s = (s, Raise KeyError)) /\
  (has_channels s ->
   axes ev !! 1 = Some raw1 -> out_of_range raw1 = false ->
   axes ev !! 2 = Some raw2 -> out_of_range raw2 = false ->
   buttons ev !! 3 = None ->
   snd (on_control_update ev s) = Raise KeyError /\
   _values (fst (on_control_update ev s)) =
     <[0 := axis_new_value (mkAxis "rudder" []) raw2]>
       (<[1 := axis_new_value (mkAxis "machine" ["inverted"]) raw1]> (_values s))).
Proof.
  split.
  - intros H. unfold on_control_update, controller_mapping_axes, bind.
    cbn [axes_loop]. unfold bind, getitem. now rewrite H.
  - intros Hch Hr1 Ho1 Hr2 Ho2 Hb3.
    destruct (Hch "machine" 1) as (o1 & Ho1'); [now left |].
    destruct (Hch "rudder" 0) as (o0 & Ho0'); [right; now left |].
    destruct (axes_loop_step ev 1 (mkAxis "machine" ["inverted"])
                [(2, mkAxis "rudder" [])] raw1 1 o1 s)
      as (sa & Hva & Ea); try assumption; [reflexivity | lia |].
    assert (Hoa : _values sa !! 0 = Some o0)
      by (rewrite Hva, lookup_insert_ne by lia; assumption).
    destruct (axes_loop_step ev 2 (mkAxis "rudder" []) [] raw2 0 o0 sa)
      as (sb & Hvb & Eb); try assumption; [reflexivity | lia |].
    assert (E : on_control_update ev s = (sb, Raise KeyError)).
    { unfold on_control_update, controller_mapping_axes, controller_mapping_buttons.
      unfold bind. rewrite Ea, Eb. cbn [axes_loop]. unfold ret at 1.
      cbv beta iota. cbn [buttons_loop]. unfold bind, getitem. now rewrite Hb3. }
    rewrite E. simpl. split; [reflexivity |]. now rewrite Hvb, Hva.
Qed.

Lemma missing_input_witness :
  let ev := mkControl (<[1 := (1 # 2)%Q]> (<[2 := 0%Q]> ∅)) ∅ in
  snd (on_control_update ev init) = Raise KeyError /\
  _values (fst (on_control_update ev init)) =
    <[0 := axis_new_value (mkAxis "rudder" []) 0]>
      (<[1 := axis_new_value (mkAxis "machine" ["inverted"]) (1 # 2)]> (_values init)).
Proof.
  intros ev.
  assert (H1 : axes ev !! 1 = Some (1 # 2)%Q) by reflexivity.
  assert (H2 : axes ev !! 2 = Some 0%Q) by reflexivity.
  assert (H3 : buttons ev !! 3 = None) by reflexivity.
  exact (proj2 (missing_input init ev (1 # 2) 0) has_channels_init
           H1 eq_refl H2 eq_refl H3).
Defined.

(** ** The encoders at their bounds *)

Section Bounds.

Lemma bytes_of_cases (x : Z) (s : Machineroom) :
  (0 <= x <= 255 /\ bytes_of x s = (s, Ok [x])) \/
  (~ 0 <= x <= 255 /\ bytes_of x s = (s, Raise ValueError)).
Proof.
  unfold bytes_of. destruct (Z.leb_spec 0 x), (Z.ltb_spec x 256); simpl;
    first [ left; split; [lia | reflexivity] | right; split; [lia | reflexivity] ].
Qed.

Lemma handle_servo_raises_compact (s : Machineroom) (channel value : Z) :
  maestro s = true -> ~ (0 <= channel <= 255 /\ 0 <= value) ->
  _handle_servo channel value s = (s, Raise ValueError).
Proof.
  intros Hm Hbad. unfold _handle_servo, bind at 1, gets. rewrite Hm.
  unfold bind. rewrite (bytes_of_byte 255) by lia.
  destruct (bytes_of_cases channel s) as [[Hc ->] | [Hc ->]]; [| reflexivity].
  destruct (bytes_of_cases (Z.min value 255) s) as [[Hv ->] | [Hv ->]];
    [lia | reflexivity].
Qed.

Lemma handle_servo_raises_delimited (s : Machineroom) (channel value : Z) :
  maestro s = false -> ~ (0 <= channel <= 255 /\ 0 <= value <= 255) ->
  _handle_servo channel value s = (s, Raise ValueError).
Proof.
  intros Hm Hbad. unfold _handle_servo, bind at 1, gets. rewrite Hm.
  unfold bind.
  destruct (bytes_of_cases channel s) as [[Hc ->] | [Hc ->]]; [| reflexivity].
  destruct (bytes_of_cases value s) as [[Hv ->] | [Hv ->]];
    [lia | reflexivity].
Qed.

Lemma set_digital_pin_compact (s : Machineroom) (pin_no value : Z) :
  maestro s = true ->
  _set_digital_pin pin_no value s =
    _handle_servo pin_no (if 127 <=? value then 255 else 0) s.
Proof. intros Hm. unfold _set_digital_pin, bind at 1, gets. now rewrite Hm. Qed.

Lemma send_compact_open (s : Machineroom) (c v : Z) :
  maestro s = true -> _serial_open s = true ->
  _send_command [255; c; v] s =
    (add_write [255; c; v] (add_log (Transmitting_bytes [255; c; v]) s), Ok tt).
Proof.
  intros Hm Ho. rewrite send_command_eq. unfold wire. now rewrite Ho, Hm.
Qed.

Lemma py_int_scaled_opp (raw : Q) : py_int (- raw * 128) = - py_int (raw * 128).
Proof.
  destruct raw as [n d]. unfold py_int. simpl.
  rewrite Z.mul_opp_l. apply Z.quot_opp_l. lia.
Qed.

Lemma py_int_scaled_step (raw : Q) (k : Z) :
  0 <= k -> (k # 128 <= raw)%Q -> (raw < k + 1 # 128)%Q ->
  py_int (raw * 128) = k.
Proof.
  destruct raw as [n d]. unfold Qle, Qlt, py_int. simpl. intros Hk Hlo Hhi.
  rewrite Pos.mul_1_r.
  rewrite Z.quot_div_nonneg by nia.
  symmetry. apply Z.div_unique with (r := n * 128 - Z.pos d * k). nia. nia.
Qed.

End Bounds.

(** X15. [_handle_servo] raises [ValueError] exactly when the channel is
    not a byte or the value is negative or, in the delimited mode only, the
    value exceeds 255 (the compact mode saturates it instead). When it
    raises, nothing is sent or logged and the state is unchanged; otherwise
    it returns normally. *)
Theorem handle_servo_errors (s : Machineroom) (channel value : Z) :
  let accepted :=
    0 <= channel <= 255 /\ 0 <= value /\ (maestro s = false -> value <= 255) in
  (accepted -> snd (_handle_servo channel value s) = Ok tt) /\
  (~ accepted -> _handle_servo channel value s = (s, Raise ValueError)) /\
  (snd (_handle_servo channel value s) = Raise ValueError <-> ~ accepted).
Proof.
  intros accepted.
  assert (Hyes : accepted -> snd (_handle_servo channel value s) = Ok tt).
  { intros (Hc & Hv & Hd). destruct (maestro s) eqn:Hm.
    - rewrite handle_servo_compact by assumption. apply send_command_ok.
    - specialize (Hd eq_refl).
      rewrite handle_servo_delimited by (assumption || lia). apply send_command_ok. }
  assert (Hno : ~ accepted -> _handle_servo channel value s = (s, Raise ValueError)).
  { intros Hbad. destruct (maestro s) eqn:Hm.
    - apply handle_servo_raises_compact; [assumption |].
      intros [Hc Hv]. apply Hbad.
      split; [assumption |]. split; [assumption | discriminate].
    - apply handle_servo_raises_delimited; [assumption |].
      intros [Hc [Hv1 Hv2]]. apply Hbad.
      split; [assumption |]. split; [assumption | intros _; assumption]. }
  split; [exact Hyes |]. split; [exact Hno |]. split.
  - intros Hr Hacc. rewrite (Hyes Hacc) in Hr. discriminate Hr.
  - intros Hbad. now rewrite (Hno Hbad).
Qed.

(** X16. In the compact mode with the link open, [_set_digital_pin]
    accepts every value, also a negative one or one above 255: it writes
    the frame [[0xFF, pin, 255]] when the value is at least 127 and
    [[0xFF, pin, 0]] otherwise, so that a button value of 1 switches off. *)
Theorem digital_pin_threshold (s : Machineroom) (pin_no value : Z) :
  maestro s = true -> _serial_open s = true -> 0 <= pin_no <= 255 ->
  let frame := [255; pin_no; if 127 <=? value then 255 else 0] in
  _set_digital_pin pin_no value s =
    (add_write frame (add_log (Transmitting_bytes frame) s), Ok tt) /\
  (127 <= value -> frame = [255; pin_no; 255]) /\
  (value < 127 -> frame = [255; pin_no; 0]).
Proof.
  intros Hm Ho Hp frame. split; [| split].
  - rewrite set_digital_pin_compact, handle_servo_compact;
      [| assumption | assumption | destruct (127 <=? value); lia | assumption].
    replace (Z.min (if 127 <=? value then 255 else 0) 255)
      with (if 127 <=? value then 255 else 0) by (destruct (127 <=? value); lia).
    now apply send_compact_open.
  - intros H. subst frame. apply Z.leb_le in H. now rewrite H.
  - intros H. subst frame. apply Z.leb_gt in H. now rewrite H.
Qed.

Lemma digital_pin_threshold_witness :
  _set_digital_pin 2 1 (fst (opened init)) =
    (add_write [255; 2; 0]
       (add_log (Transmitting_bytes [255; 2; 0]) (fst (opened init))), Ok tt).
Proof.
  assert (Hm : maestro (fst (opened init)) = true) by reflexivity.
  assert (Ho : _serial_open (fst (opened init)) = true) by reflexivity.
  assert (Hp : 0 <= 2 <= 255) by lia.
  exact (proj1 (digital_pin_threshold (fst (opened init)) 2 1 Hm Ho Hp)).
Defined.

(** X17. Inverting a binding amounts to negating the axis: for every
    rational input, the value of an inverted binding at [raw] is the value
    of a plain binding at [- raw], and the other way round. *)
Theorem inversion_is_negation (inv plain : axis_item) (raw : Q) :
  inverted inv = true -> inverted plain = false ->
  axis_new_value inv raw = axis_new_value plain (- raw) /\
  axis_new_value plain raw = axis_new_value inv (- raw).
Proof.
  intros Hi Hp. unfold axis_new_value. rewrite Hi, Hp, py_int_scaled_opp.
  split; f_equal; lia.
Qed.

Lemma inversion_is_negation_witness :
  axis_new_value (mkAxis "machine" ["inverted"]) (1 # 3) =
    axis_new_value (mkAxis "rudder" []) (- (1 # 3)).
Proof.
  exact (proj1 (inversion_is_negation (mkAxis "machine" ["inverted"])
                  (mkAxis "rudder" []) (1 # 3) eq_refl eq_refl)).
Defined.

(** X18. The axis mapping is a staircase with steps of width 1/128: for
    [k >= 0] and [k/128 <= raw < (k+1)/128], a plain binding yields
    [min(128 + k, 255)] at [raw] and [128 - k] at [- raw]. Around zero this
    leaves a dead zone twice as wide: every [raw] with [|raw| < 1/128] yields
    the neutral value 128. *)
Theorem axis_staircase (item : axis_item) (raw : Q) (k : Z) :
  inverted item = false ->
  0 <= k -> (k # 128 <= raw)%Q -> (raw < k + 1 # 128)%Q ->
  axis_new_value item raw = Z.min (128 + k) 255 /\
  axis_new_value item (- raw) = 128 - k /\
  (k = 0 -> axis_new_value item raw = 128 /\ axis_new_value item (- raw) = 128).
Proof.
  intros Hp Hk Hlo Hhi. unfold axis_new_value.
  rewrite Hp, py_int_scaled_opp, (py_int_scaled_step raw k Hk Hlo Hhi).
  repeat split; lia.
Qed.

Lemma axis_staircase_witness :
  axis_new_value (mkAxis "rudder" []) (1 # 200) = 128 /\
  axis_new_value (mkAxis "rudder" []) (- (1 # 200)) = 128.
Proof.
  assert (Hk : 0 <= 0) by lia.
  assert (Hlo : (0 # 128 <= 1 # 200)%Q) by discriminate.
  assert (Hhi : (1 # 200 < 0 + 1 # 128)%Q) by reflexivity.
  exact (proj2 (proj2 (axis_staircase (mkAxis "rudder" []) (1 # 200) 0
                         eq_refl Hk Hlo Hhi)) eq_refl).
Defined.

(** ** The direct requests *)

Section DirectRequests.

Lemma then_store_ok {A} (m : M A) (name : string) (v : Z) (s : Machineroom_full)
    (c' : Machineroom) (a : A) :
  m (component s) = (c', Ok a) ->
  then_store (lift m) name v s =
    (mkFull c' (<[name := v]> (_values_by_name s)), Ok tt).
Proof. intros H. unfold then_store, lift. now rewrite H. Qed.

Lemma then_store_raise {A} (m : M A) (name : string) (v : Z) (s : Machineroom_full)
    (e : exn) :
  m (component s) = (component s, Raise e) ->
  then_store (lift m) name v s = (s, Raise e).
Proof. intros H. unfold then_store, lift. rewrite H. now destruct s. Qed.

Lemma servo_request_ok (channel v : Z) (name : string) (s : Machineroom_full) :
  maestro (component s) = true -> _serial_open (component s) = true ->
  0 <= channel <= 255 -> 0 <= v ->
  then_store (lift (_handle_servo channel v)) name v s =
    (mkFull
       (add_write [255; channel; Z.min v 255]
          (add_log (Transmitting_bytes [255; channel; Z.min v 255]) (component s)))
       (<[name := v]> (_values_by_name s)), Ok tt).
Proof.
  intros Hm Ho Hc Hv. apply then_store_ok with (a := tt).
  rewrite handle_servo_compact by assumption. now apply send_compact_open.
Qed.

End DirectRequests.

(** X19. The requests [machine] and [rudder] are not subject to
    send-on-change: in the compact mode with the link open, a request with a
    non-negative value writes its frame every time, also when it repeats
    the previous one. The value is stored unclamped under the name of the
    target; the entries of [_values] under the channel numbers, which the
    control updates compare with, are left as they are. *)
Theorem direct_requests_always_send (s : Machineroom_full) (v : Z) :
  maestro (component s) = true -> _serial_open (component s) = true -> 0 <= v ->
  let m2 := fst (on_machinerequest v (fst (on_machinerequest v s))) in
  let r2 := fst (on_rudderrequest v (fst (on_rudderrequest v s))) in
  (port (component m2) =
     port (component s) ++ [[255; 1; Z.min v 255]; [255; 1; Z.min v 255]] /\
   _values (component m2) = _values (component s) /\
   _values_by_name m2 !! "machine" = Some v) /\
  (port (component r2) =
     port (component s) ++ [[255; 0; Z.min v 255]; [255; 0; Z.min v 255]] /\
   _values (component r2) = _values (component s) /\
   _values_by_name r2 !! "rudder" = Some v).
Proof.
  intros Hm Ho Hv m2 r2. subst m2 r2.
  unfold on_machinerequest, on_rudderrequest, _machine_channel, _rudder_channel.
  split.
  - rewrite (servo_request_ok 1 v "machine" s) by (assumption || lia). simpl fst.
    rewrite servo_request_ok by (assumption || lia || reflexivity). simpl.
    split; [now rewrite <- app_assoc |]. split; [reflexivity |].
    apply lookup_insert_eq.
  - rewrite (servo_request_ok 0 v "rudder" s) by (assumption || lia). simpl fst.
    rewrite servo_request_ok by (assumption || lia || reflexivity). simpl.
    split; [now rewrite <- app_assoc |]. split; [reflexivity |].
    apply lookup_insert_eq.
Qed.

Lemma direct_requests_always_send_witness :
  let s := mkFull (fst (opened init)) ∅ in
  let m2 := fst (on_machinerequest 300 (fst (on_machinerequest 300 s))) in
  port (component m2) = port (component s) ++ [[255; 1; 255]; [255; 1; 255]] /\
  _values (component m2) = _values (component s) /\
  _values_by_name m2 !! "machine" = Some 300.
Proof.
  intros s.
  assert (Hm : maestro (component s) = true) by reflexivity.
  assert (Ho : _serial_open (component s) = true) by reflexivity.
  assert (Hv : 0 <= 300) by lia.
  exact (proj1 (direct_requests_always_send s 300 Hm Ho Hv)).
Defined.

(** X20. In the compact mode a [machine] or [rudder] request with a
    negative value raises [ValueError] before anything is sent, and the
    value is not stored: the whole state is unchanged. *)
Theorem direct_request_rejects_negative (s : Machineroom_full) (v : Z) :
  maestro (component s) = true -> v < 0 ->
  on_machinerequest v s = (s, Raise ValueError) /\
  on_rudderrequest v s = (s, Raise ValueError).
Proof.
  intros Hm Hv. split; apply then_store_raise;
    apply handle_servo_raises_compact; (assumption || lia).
Qed.

Lemma direct_request_rejects_negative_witness :
  on_machinerequest (-1) (mkFull init ∅) = (mkFull init ∅, Raise ValueError).
Proof.
  assert (Hm : maestro (component (mkFull init ∅)) = true) by reflexivity.
  assert (Hv : -1 < 0) by lia.
  exact (proj1 (direct_request_rejects_negative (mkFull init ∅) (-1) Hm Hv)).
Defined.

(** X21. A [pump] request never fails, whatever its value and the mode:
    the value is stored as it is under the name "pump" and the entries of
    [_values] under the channel numbers are kept. In the compact mode with
    the link open it writes [[0xFF, 2, 255]] for a value of at least 127 and
    [[0xFF, 2, 0]] otherwise. *)
Theorem pump_request_total (s : Machineroom_full) (v : Z) :
  snd (on_pumprequest v s) = Ok tt /\
  _values_by_name (fst (on_pumprequest v s)) !! "pump" = Some v /\
  _values (component (fst (on_pumprequest v s))) = _values (component s) /\
  (maestro (component s) = true -> _serial_open (component s) = true ->
   port (component (fst (on_pumprequest v s))) =
     port (component s) ++ [[255; 2; if 127 <=? v then 255 else 0]]).
Proof.
  unfold on_pumprequest, _pump_channel.
  destruct (_set_digital_pin 2 v (component s)) as [c' r] eqn:E.
  assert (Hr : r = Ok tt).
  { change r with (snd (c', r)). rewrite <- E. apply set_digital_pin_ok. lia. }
  subst r. rewrite (then_store_ok _ _ _ _ _ _ E). simpl.
  split; [reflexivity |]. split; [apply lookup_insert_eq |]. split.
  - change c' with (fst (c', Ok tt)). rewrite <- E. apply values_kept_set_digital_pin.
  - intros Hm Ho. change c' with (fst (c', Ok tt)). rewrite <- E.
    rewrite set_digital_pin_compact, handle_servo_compact;
      [| assumption | lia | destruct (127 <=? v); lia | assumption].
    replace (Z.min (if 127 <=? v then 255 else 0) 255)
      with (if 127 <=? v then 255 else 0) by (destruct (127 <=? v); lia).
    now rewrite send_compact_open.
Qed.

(** X22. The ping never fails: every number [randint(0, 255)] can return
    is a byte, in both modes. It leaves [_values] as it is, and in the
    compact mode with the link open it writes the rudder frame for the
    number drawn. *)
Theorem ping_never_fails (s : Machineroom) (drawn : Z) :
  0 <= drawn <= 255 ->
  snd (on_ping drawn s) = Ok tt /\
  _values (fst (on_ping drawn s)) = _values s /\
  (maestro s = true -> _serial_open s = true ->
   port (fst (on_ping drawn s)) = port s ++ [[255; 0; drawn]]).
Proof.
  intros H. unfold on_ping, _rudder_channel. split.
  - apply handle_servo_ok; lia.
  - split; [apply values_kept_handle_servo |]. intros Hm Ho.
    rewrite handle_servo_compact by (assumption || lia).
    replace (Z.min drawn 255) with drawn by lia.
    now rewrite send_compact_open.
Qed.

Lemma ping_never_fails_witness :
  snd (on_ping 255 (fst (opened init))) = Ok tt /\
  port (fst (on_ping 255 (fst (opened init)))) =
    port (fst (opened init)) ++ [[255; 0; 255]].
Proof.
  assert (H : 0 <= 255 <= 255) by lia.
  pose proof (ping_never_fails (fst (opened init)) 255 H) as (H1 & _ & H3).
  split; [exact H1 | exact (H3 eq_refl eq_refl)].
Defined.

(** ** The port and the log *)

Section PortAndLog.

Lemma announced_app (l1 l2 : list log_entry) :
  announced (l1 ++ l2) = announced l1 ++ announced l2.
Proof. unfold announced. apply flat_map_app. Qed.

Lemma port_matches_log_send (command : list Z) :
  preserves port_matches_log (_send_command command).
Proof.
  intros s H. rewrite send_command_eq. simpl.
  destruct (_serial_open s); simpl.
  - destruct (Nat.eqb (length (wire s command)) 3) eqn:E; simpl;
      rewrite ?announced_app, H; simpl; rewrite E; simpl;
      now rewrite ?app_nil_r.
  - rewrite announced_app, H. simpl. now rewrite app_nil_r.
Qed.

Lemma port_matches_log_trans (s1 s2 s3 : Machineroom) :
  port_matches_log s1 s2 -> port_matches_log s2 s3 -> port_matches_log s1 s3.
Proof. intros H12 H23 H. auto. Qed.

Lemma port_matches_log_on_control_update (ev : controldata) :
  preserves port_matches_log (on_control_update ev).
Proof.
  apply preserves_on_control_update;
    first [ exact port_matches_log_trans
          | intros s H; exact H
          | intros raw s H; simpl; rewrite announced_app, H; simpl;
            now rewrite app_nil_r
          | intros k v s H; exact H
          | intros; apply preserves_handle_servo
          | intros; apply preserves_set_digital_pin ];
    first [ exact port_matches_log_trans | exact port_matches_log_send
          | intros s H; exact H ].
Qed.

Lemma port_matches_log_opened : preserves port_matches_log opened.
Proof.
  apply preserves_opened;
    first [ exact port_matches_log_trans | exact port_matches_log_send
          | intros s H; exact H ].
Qed.

End PortAndLog.

(** X23. Through every run from the initial state, the frames handed to
    the serial port are exactly the commands announced in the log as
    "Transmitting bytes" that are three bytes long, in the same order: no
    frame is written without being logged, and an announced command is
    withheld only for its length. *)
Theorem port_is_logged (evs : list event) :
  port (mr (run system_init evs)) = announced (log (mr (run system_init evs))).
Proof.
  assert (H : port_matches_log (mr system_init) (mr (run system_init evs))).
  { apply (run_all_keeps port_matches_log);
      first [ exact port_matches_log_trans | exact port_matches_log_on_control_update
            | exact port_matches_log_opened | intros s H; exact H ]. }
  now apply H.
Qed.

(** ** An update given up at its second axis *)

Section PartialUpdate.

Lemma log_grows_send (command : list Z) :
  preserves (fun s s' => exists l, log s' = log s ++ l) (_send_command command).
Proof.
  intros s. rewrite send_command_eq. simpl.
  destruct (_serial_open s); simpl; [destruct (Nat.eqb _ 3); simpl |];
    eexists; rewrite <- ?app_assoc; reflexivity.
Qed.

Lemma log_grows_handle_servo (channel value : Z) :
  preserves (fun s s' => exists l, log s' = log s ++ l) (_handle_servo channel value).
Proof.
  apply preserves_handle_servo.
  - intros s. exists []. now rewrite app_nil_r.
  - intros s1 s2 s3 [l1 H1] [l2 H2]. exists (l1 ++ l2).
    now rewrite H2, H1, app_assoc.
  - exact log_grows_send.
Qed.

(** One axis in range, handled alone: the state it leaves. *)
Lemma axis_handled (ev : controldata) (key : Z) (item : axis_item) (raw : Q)
    (t old : Z) (s : Machineroom) :
  axes ev !! key = Some raw -> out_of_range raw = false ->
  targets_lookup targets (axis_name item) = Some t -> 0 <= t <= 255 ->
  _values s !! t = Some old ->
  axes_loop ev [(key, item)] s =
    (if old =? axis_new_value item raw then s
     else set_value t (axis_new_value item raw)
            (fst (_handle_servo t (axis_new_value item raw) s)),
     Ok true).
Proof.
  intros Hraw Hout Ht Hbyte Hold. cbn [axes_loop].
  rewrite (bind_ok _ _ _ _ _ (getitem_ok _ _ _ s Hraw)), Hout.
  rewrite targets_getitem_eq, Ht, (bind_ok (ret t) _ s s t eq_refl).
  rewrite (bind_ok _ _ _ _ _ (values_getitem_ok _ _ _ Hold)).
  destruct (old =? axis_new_value item raw); [reflexivity |].
  change (negb false) with true. cbv iota.
  assert (Hok : snd (_handle_servo t (axis_new_value item raw) s) = Ok tt).
  { apply handle_servo_ok; [assumption |].
    now apply axis_new_value_bounds, in_range_iff. }
  destruct (_handle_servo t (axis_new_value item raw) s) as [sh r] eqn:E.
  simpl in Hok. subst r. unfold bind. rewrite E. reflexivity.
Qed.

End PartialUpdate.

(** C3 (amended). An update is given up at the first axis, in the order of
    the mapping, whose value is out of range, once the axes before it were
    present and in range. With axis 1 out of range the whole update is
    discarded: a warning is logged and nothing else happens. With axis 1 in
    range and axis 2 out of range a warning is logged and nothing is written
    or stored for axis 2 and for the button, but axis 1 has been handled
    already: its value is stored and, when it differs from the value stored
    before, its frame was sent, so that the update is applied in part. *)
Theorem update_stops_at_bad_axis (s : Machineroom) (ev : controldata) (raw1 : Q) :
  axes ev !! 1 = Some raw1 ->
  (out_of_range raw1 = true ->
   on_control_update ev s = (add_log (Incorrect_control_value raw1) s, Ok tt)) /\
  (forall raw2 old,
     out_of_range raw1 = false ->
     axes ev !! 2 = Some raw2 -> out_of_range raw2 = true ->
     _values s !! 1 = Some old ->
     let nv := axis_new_value (mkAxis "machine" ["inverted"]) raw1 in
     let s' := fst (on_control_update ev s) in
     snd (on_control_update ev s) = Ok tt /\
     _values s' = <[1 := nv]> (_values s) /\
     (exists l, port s' = port s ++ l /\
                Forall (fun f => frame_channel f = Some 1) l) /\
     (exists l, log s' = log s ++ l ++ [Incorrect_control_value raw2]) /\
     (old = nv ->
      on_control_update ev s = (add_log (Incorrect_control_value raw2) s, Ok tt)) /\
     (old <> nv -> maestro s = true -> _serial_open s = true ->
      port s' = port s ++ [[255; 1; nv]])).
Proof.
  intros Hr1. split.
  - intros Ho1.
    exact (axes_rejected_after s s ev [] [(2, mkAxis "rudder" [])] 1
             (mkAxis "machine" ["inverted"]) raw1 eq_refl Hr1 Ho1 eq_refl).
  - intros raw2 old Ho1 Hr2 Ho2 Hold nv s'.
    assert (Hb : 0 <= nv <= 255)
      by (now apply axis_new_value_bounds, in_range_iff).
    pose proof (axis_handled ev 1 (mkAxis "machine" ["inverted"]) raw1 1 old s
                  Hr1 Ho1 eq_refl ltac:(lia) Hold) as Ha.
    fold nv in Ha.
    set (s1 := if old =? nv then s
               else set_value 1 nv (fst (_handle_servo 1 nv s))) in Ha.
    assert (E : on_control_update ev s =
                (add_log (Incorrect_control_value raw2) s1, Ok tt)).
    { exact (axes_rejected_after s s1 ev [(1, mkAxis "machine" ["inverted"])] []
               2 (mkAxis "rudder" []) raw2 eq_refl Hr2 Ho2 Ha). }
    destruct (writes_to_handle_servo 1 nv s) as [Hv (l & Hl & Hf)].
    destruct (log_grows_handle_servo 1 nv s) as [lg Hlg].
    subst s'. rewrite E. simpl. subst s1.
    destruct (Z.eqb_spec old nv) as [Heq | Hne].
    + split; [reflexivity |]. split; [symmetry; apply insert_id; congruence |].
      split; [exists []; split; [now rewrite app_nil_r | constructor] |].
      split; [now exists [] |]. split; [reflexivity |].
      intros Hne. now destruct Hne.
    + simpl. split; [reflexivity |]. split; [now rewrite Hv |].
      split; [now exists l |].
      split; [exists lg; now rewrite Hlg, app_assoc |].
      split; [intros Heq; now destruct Hne |].
      intros _ Hm Ho. rewrite handle_servo_compact by (assumption || lia).
      replace (Z.min nv 255) with nv by lia.
      now rewrite send_compact_open.
Qed.

Lemma update_stops_at_bad_axis_witness :
  let ev := mkControl (<[1 := (1 # 2)%Q]> (<[2 := 2%Q]> ∅)) (<[3 := 255]> ∅) in
  let s := fst (opened init) in
  let s' := fst (on_control_update ev s) in
  snd (on_control_update ev s) = Ok tt /\
  _values s' = <[1 := 64]> (_values s) /\
  (exists l, log s' = log s ++ l ++ [Incorrect_control_value 2]) /\
  port s' = port s ++ [[255; 1; 64]].
Proof.
  intros ev s s'.
  assert (Hr1 : axes ev !! 1 = Some (1 # 2)%Q) by reflexivity.
  assert (Hr2 : axes ev !! 2 = Some 2%Q) by reflexivity.
  assert (Hold : _values s !! 1 = Some 0) by reflexivity.
  assert (Hne : 0 <> axis_new_value (mkAxis "machine" ["inverted"]) (1 # 2))
    by discriminate.
  pose proof (proj2 (update_stops_at_bad_axis s ev (1 # 2) Hr1) 2%Q 0
                eq_refl Hr2 eq_refl Hold) as (H1 & H2 & _ & H4 & _ & H6).
  split; [exact H1 |]. split; [exact H2 |]. split; [exact H4 |].
  exact (H6 Hne eq_refl eq_refl).
Defined.
